(** * The live voice-session hook [useGeminiLive] and its collaborators

    A shallow embedding of [hooks/useGeminiLive.ts]: the React state and
    the ref cells of the hook are one record, every callback of the hook
    is a computation in a small state / exception / output monad, and
    the calls the hook makes on browser objects (audio contexts, media
    tracks, the recorder, buffer sources, the remote session) are
    recorded as an ordered list of effects.  The PCM codec, the
    countdown of [components/Timer.tsx] and the card selection and
    transcript of [App.tsx] follow, each in a module of its own. *)

From Stdlib Require Import List Bool Arith ZArith NArith QArith Qminmax Qround Qabs.
From Stdlib Require Import String Ascii DecimalString Lia Lqa Sorted.
Import ListNotations.

Set Implicit Arguments.

(** ** JavaScript strings

    A JavaScript string is a sequence of UTF-16 code units. *)

Module Js.

Definition code_unit := N.
Definition jsstring := list code_unit.

(** A string literal of the source (all of them are ASCII). *)
Definition lit (s : string) : jsstring :=
  List.map N_of_ascii (list_ascii_of_string s).

(** Truthiness of a string: every string but [''] is truthy. *)
Definition truthy (s : jsstring) : bool :=
  match s with [] => false | _ :: _ => true end.

(** [a || b] on strings. *)
Definition or_else (a b : jsstring) : jsstring :=
  if truthy a then a else b.

Fixpoint startsWith (s p : jsstring) : bool :=
  match p, s with
  | [], _ => true
  | _ :: _, [] => false
  | c :: p', d :: s' => N.eqb c d && startsWith s' p'
  end.

(** [String.prototype.includes]. *)
Fixpoint includes (s p : jsstring) : bool :=
  startsWith s p ||
  match s with
  | [] => false
  | _ :: s' => includes s' p
  end.

(** White space and line terminators, the code units that
    [String.prototype.trim] strips. *)
Definition isWhiteSpace (c : code_unit) : bool :=
  ((9 <=? c) && (c <=? 13) || (c =? 32) || (c =? 160) || (c =? 5760)
   || (8192 <=? c) && (c <=? 8202) || (c =? 8232) || (c =? 8233)
   || (c =? 8239) || (c =? 8287) || (c =? 12288) || (c =? 65279))%N.

Fixpoint trimStart (s : jsstring) : jsstring :=
  match s with
  | [] => []
  | c :: s' => if isWhiteSpace c then trimStart s' else s
  end.

Definition trimEnd (s : jsstring) : jsstring := rev (trimStart (rev s)).

(** [String.prototype.trim]. *)
Definition trim (s : jsstring) : jsstring := trimEnd (trimStart s).

(** [Number.prototype.toString] on a non-negative integer such as the
    value of [Date.now()]. *)
Definition numberToString (n : N) : jsstring :=
  lit (NilZero.string_of_uint (N.to_uint n)).

End Js.

Import Js.

(** ** The types of [types.ts] the hook uses *)

Inductive ConnectionState := DISCONNECTED | CONNECTING | CONNECTED | ERROR.

Inductive Role := user | model.

Record ChatMessage := { id : jsstring; role : Role; text : jsstring }.

(** The hook itself only ever writes ['neutral']. *)
Inductive FluencyFeedback := neutral | feedback (tag : jsstring).

(** ** Browser and SDK objects

    Objects are identified by the address at which they were
    allocated. *)

Definition handle := nat.

Record AudioContext := { ctx : handle }.

Record MediaStream := { getTracks : list handle }.

(** The processor node; its [onaudioprocess] closure holds the value
    [isMuted] had in the render that built the [connect] that made the
    node. *)
Record ScriptProcessorNode := { node : handle; capturedIsMuted : bool }.

Inductive RecordingState := inactive | recording | paused.

Record MediaRecorder := { recorder : handle; state : RecordingState }.

(** A [Blob]: its bytes and its MIME type. *)
Record Blob := { content : list N; type : jsstring }.

Definition size (b : Blob) : nat := List.length (content b).

(** [new Blob(parts, { type })] *)
Definition newBlob (blobParts : list Blob) (type : jsstring) : Blob :=
  {| content := List.concat (List.map content blobParts); type := type |}.

(** An [AudioBuffer] of [frames] sample frames ([length] in the API);
    [duration] is [length / sampleRate] seconds. *)
Record AudioBuffer := { frames : N; sampleRate : positive }.

Definition duration (b : AudioBuffer) : Q :=
  Z.of_N (frames b) # sampleRate b.

Record SessionPromise := { session : handle }.

(** A thrown value; [message] is absent when the thrown value has no
    such property. *)
Record JsError := { message : option jsstring }.

(** The server events of [@google/genai], restricted to the fields the
    message handler reads. *)
Module GenAI.

Record Blob := { data : option jsstring }.
Record Part := { inlineData : option Blob }.
Record Content := { parts : option (list Part) }.
Record Transcription := { text : option jsstring }.
Record LiveServerContent := {
  modelTurn : option Content;
  inputTranscription : option Transcription;
  outputTranscription : option Transcription;
  turnComplete : option bool }.
Record LiveServerMessage := { serverContent : option LiveServerContent }.

End GenAI.

(** ** Effects on the outside world, in the order the hook issues them *)

Inductive Effect :=
| NewAudioContext (c : handle)
| ContextResume (c : handle)
| ContextClose (c : handle)
| GetUserMedia (tracks : list handle)
| TrackStop (t : handle)
| NewMediaRecorder (r : handle)
| RecorderStart (r : handle)
| RecorderStop (r : handle)
| CreateScriptProcessor (p : handle)
| NodeConnect (p : handle)
| ProcessorDisconnect (p : handle)
| SourceStart (src : handle) (when : Q) (buffer : AudioBuffer)
| SourceStop (src : handle)
| LiveConnect (s : handle) (systemInstruction : jsstring)
| SessionSend (s : handle) (greeting : jsstring)
| SessionSendRealtimeInput (s : handle)
| SessionClose (s : handle)
| ConsoleError.

(** A device an effect acquires or releases: an open audio context, a
    live microphone track, a recorder that records, a connected
    processor node, a started buffer source, an open remote session. *)
Inductive Kind := Context | Track | Recorder | Processor | Source | Session.

Definition Device : Type := Kind * handle.

Definition acquires (e : Effect) : list Device :=
  match e with
  | NewAudioContext c => [(Context, c)]
  | GetUserMedia tracks => List.map (pair Track) tracks
  | RecorderStart r => [(Recorder, r)]
  | CreateScriptProcessor p => [(Processor, p)]
  | SourceStart src _ _ => [(Source, src)]
  | LiveConnect s _ => [(Session, s)]
  | _ => []
  end.

Definition releases (e : Effect) : option Device :=
  match e with
  | ContextClose c => Some (Context, c)
  | TrackStop t => Some (Track, t)
  | RecorderStop r => Some (Recorder, r)
  | ProcessorDisconnect p => Some (Processor, p)
  | SourceStop src => Some (Source, src)
  | SessionClose s => Some (Session, s)
  | _ => None
  end.

(** The release calls among the effects. *)
Definition isRelease (e : Effect) : bool :=
  match releases e with
  | Some _ => true
  | None => false
  end.

(** ** The state of one hook instance *)

Record Hook := {
  (* useState *)
  connectionState : ConnectionState;
  volume : Q;
  isModelSpeaking : bool;
  error : option jsstring;
  messages : list ChatMessage;
  isMuted : bool;
  fluencyFeedback : FluencyFeedback;
  userTranscript : jsstring;
  (* useRef *)
  inputAudioContextRef : option AudioContext;
  outputAudioContextRef : option AudioContext;
  mediaStreamRef : option MediaStream;
  scriptProcessorRef : option ScriptProcessorNode;
  mediaRecorderRef : option MediaRecorder;
  audioChunksRef : list Blob;
  activeSourcesRef : list handle;
  nextStartTimeRef : Q;
  sessionPromiseRef : option SessionPromise;
  currentInputRef : jsstring;
  currentOutputRef : jsstring;
  (* the next free address *)
  heap : handle }.

(** The state after [useState] / [useRef] initialisation. *)
Definition initial : Hook := {|
  connectionState := DISCONNECTED; volume := 0; isModelSpeaking := false;
  error := None; messages := []; isMuted := false;
  fluencyFeedback := neutral; userTranscript := [];
  inputAudioContextRef := None; outputAudioContextRef := None;
  mediaStreamRef := None; scriptProcessorRef := None;
  mediaRecorderRef := None; audioChunksRef := [];
  activeSourcesRef := []; nextStartTimeRef := 0;
  sessionPromiseRef := None; currentInputRef := []; currentOutputRef := [];
  heap := O |}.

(** ** Writing one cell

    [setX v] is the state setter of [useState] called with the value
    [v]; [write_R v] is the assignment [R.current = v]. *)

Definition setConnectionState (v : ConnectionState) (h : Hook) : Hook :=
  {| connectionState := v; volume := volume h;
     isModelSpeaking := isModelSpeaking h; error := error h;
     messages := messages h; isMuted := isMuted h;
     fluencyFeedback := fluencyFeedback h;
     userTranscript := userTranscript h;
     inputAudioContextRef := inputAudioContextRef h;
     outputAudioContextRef := outputAudioContextRef h;
     mediaStreamRef := mediaStreamRef h;
     scriptProcessorRef := scriptProcessorRef h;
     mediaRecorderRef := mediaRecorderRef h;
     audioChunksRef := audioChunksRef h;
     activeSourcesRef := activeSourcesRef h;
     nextStartTimeRef := nextStartTimeRef h;
     sessionPromiseRef := sessionPromiseRef h;
     currentInputRef := currentInputRef h;
     currentOutputRef := currentOutputRef h; heap := heap h |}.

Definition setVolume (v : Q) (h : Hook) : Hook :=
  {| connectionState := connectionState h; volume := v;
     isModelSpeaking := isModelSpeaking h; error := error h;
     messages := messages h; isMuted := isMuted h;
     fluencyFeedback := fluencyFeedback h;
     userTranscript := userTranscript h;
     inputAudioContextRef := inputAudioContextRef h;
     outputAudioContextRef := outputAudioContextRef h;
     mediaStreamRef := mediaStreamRef h;
     scriptProcessorRef := scriptProcessorRef h;
     mediaRecorderRef := mediaRecorderRef h;
     audioChunksRef := audioChunksRef h;
     activeSourcesRef := activeSourcesRef h;
     nextStartTimeRef := nextStartTimeRef h;
     sessionPromiseRef := sessionPromiseRef h;
     currentInputRef := currentInputRef h;
     currentOutputRef := currentOutputRef h; heap := heap h |}.

Definition setIsModelSpeaking (v : bool) (h : Hook) : Hook :=
  {| connectionState := connectionState h; volume := volume h;
     isModelSpeaking := v; error := error h; messages := messages h;
     isMuted := isMuted h; fluencyFeedback := fluencyFeedback h;
     userTranscript := userTranscript h;
     inputAudioContextRef := inputAudioContextRef h;
     outputAudioContextRef := outputAudioContextRef h;
     mediaStreamRef := mediaStreamRef h;
     scriptProcessorRef := scriptProcessorRef h;
     mediaRecorderRef := mediaRecorderRef h;
     audioChunksRef := audioChunksRef h;
     activeSourcesRef := activeSourcesRef h;
     nextStartTimeRef := nextStartTimeRef h;
     sessionPromiseRef := sessionPromiseRef h;
     currentInputRef := currentInputRef h;
     currentOutputRef := currentOutputRef h; heap := heap h |}.

Definition setError (v : option jsstring) (h : Hook) : Hook :=
  {| connectionState := connectionState h; volume := volume h;
     isModelSpeaking := isModelSpeaking h; error := v;
     messages := messages h; isMuted := isMuted h;
     fluencyFeedback := fluencyFeedback h;
     userTranscript := userTranscript h;
     inputAudioContextRef := inputAudioContextRef h;
     outputAudioContextRef := outputAudioContextRef h;
     mediaStreamRef := mediaStreamRef h;
     scriptProcessorRef := scriptProcessorRef h;
     mediaRecorderRef := mediaRecorderRef h;
     audioChunksRef := audioChunksRef h;
     activeSourcesRef := activeSourcesRef h;
     nextStartTimeRef := nextStartTimeRef h;
     sessionPromiseRef := sessionPromiseRef h;
     currentInputRef := currentInputRef h;
     currentOutputRef := currentOutputRef h; heap := heap h |}.

Definition setMessages (v : list ChatMessage) (h : Hook) : Hook :=
  {| connectionState := connectionState h; volume := volume h;
     isModelSpeaking := isModelSpeaking h; error := error h;
     messages := v; isMuted := isMuted h;
     fluencyFeedback := fluencyFeedback h;
     userTranscript := userTranscript h;
     inputAudioContextRef := inputAudioContextRef h;
     outputAudioContextRef := outputAudioContextRef h;
     mediaStreamRef := mediaStreamRef h;
     scriptProcessorRef := scriptProcessorRef h;
     mediaRecorderRef := mediaRecorderRef h;
     audioChunksRef := audioChunksRef h;
     activeSourcesRef := activeSourcesRef h;
     nextStartTimeRef := nextStartTimeRef h;
     sessionPromiseRef := sessionPromiseRef h;
     currentInputRef := currentInputRef h;
     currentOutputRef := currentOutputRef h; heap := heap h |}.

Definition setIsMuted (v : bool) (h : Hook) : Hook :=
  {| connectionState := connectionState h; volume := volume h;
     isModelSpeaking := isModelSpeaking h; error := error h;
     messages := messages h; isMuted := v;
     fluencyFeedback := fluencyFeedback h;
     userTranscript := userTranscript h;
     inputAudioContextRef := inputAudioContextRef h;
     outputAudioContextRef := outputAudioContextRef h;
     mediaStreamRef := mediaStreamRef h;
     scriptProcessorRef := scriptProcessorRef h;
     mediaRecorderRef := mediaRecorderRef h;
     audioChunksRef := audioChunksRef h;
     activeSourcesRef := activeSourcesRef h;
     nextStartTimeRef := nextStartTimeRef h;
     sessionPromiseRef := sessionPromiseRef h;
     currentInputRef := currentInputRef h;
     currentOutputRef := currentOutputRef h; heap := heap h |}.

Definition setFluencyFeedback (v : FluencyFeedback) (h : Hook) : Hook :=
  {| connectionState := connectionState h; volume := volume h;
     isModelSpeaking := isModelSpeaking h; error := error h;
     messages := messages h; isMuted := isMuted h; fluencyFeedback := v;
     userTranscript := userTranscript h;
     inputAudioContextRef := inputAudioContextRef h;
     outputAudioContextRef := outputAudioContextRef h;
     mediaStreamRef := mediaStreamRef h;
     scriptProcessorRef := scriptProcessorRef h;
     mediaRecorderRef := mediaRecorderRef h;
     audioChunksRef := audioChunksRef h;
     activeSourcesRef := activeSourcesRef h;
     nextStartTimeRef := nextStartTimeRef h;
     sessionPromiseRef := sessionPromiseRef h;
     currentInputRef := currentInputRef h;
     currentOutputRef := currentOutputRef h; heap := heap h |}.

Definition setUserTranscript (v : jsstring) (h : Hook) : Hook :=
  {| connectionState := connectionState h; volume := volume h;
     isModelSpeaking := isModelSpeaking h; error := error h;
     messages := messages h; isMuted := isMuted h;
     fluencyFeedback := fluencyFeedback h; userTranscript := v;
     inputAudioContextRef := inputAudioContextRef h;
     outputAudioContextRef := outputAudioContextRef h;
     mediaStreamRef := mediaStreamRef h;
     scriptProcessorRef := scriptProcessorRef h;
     mediaRecorderRef := mediaRecorderRef h;
     audioChunksRef := audioChunksRef h;
     activeSourcesRef := activeSourcesRef h;
     nextStartTimeRef := nextStartTimeRef h;
     sessionPromiseRef := sessionPromiseRef h;
     currentInputRef := currentInputRef h;
     currentOutputRef := currentOutputRef h; heap := heap h |}.

Definition write_inputAudioContextRef (v : option AudioContext) (h : Hook) : Hook :=
  {| connectionState := connectionState h; volume := volume h;
     isModelSpeaking := isModelSpeaking h; error := error h;
     messages := messages h; isMuted := isMuted h;
     fluencyFeedback := fluencyFeedback h;
     userTranscript := userTranscript h; inputAudioContextRef := v;
     outputAudioContextRef := outputAudioContextRef h;
     mediaStreamRef := mediaStreamRef h;
     scriptProcessorRef := scriptProcessorRef h;
     mediaRecorderRef := mediaRecorderRef h;
     audioChunksRef := audioChunksRef h;
     activeSourcesRef := activeSourcesRef h;
     nextStartTimeRef := nextStartTimeRef h;
     sessionPromiseRef := sessionPromiseRef h;
     currentInputRef := currentInputRef h;
     currentOutputRef := currentOutputRef h; heap := heap h |}.

Definition write_outputAudioContextRef (v : option AudioContext) (h : Hook) : Hook :=
  {| connectionState := connectionState h; volume := volume h;
     isModelSpeaking := isModelSpeaking h; error := error h;
     messages := messages h; isMuted := isMuted h;
     fluencyFeedback := fluencyFeedback h;
     userTranscript := userTranscript h;
     inputAudioContextRef := inputAudioContextRef h;
     outputAudioContextRef := v; mediaStreamRef := mediaStreamRef h;
     scriptProcessorRef := scriptProcessorRef h;
     mediaRecorderRef := mediaRecorderRef h;
     audioChunksRef := audioChunksRef h;
     activeSourcesRef := activeSourcesRef h;
     nextStartTimeRef := nextStartTimeRef h;
     sessionPromiseRef := sessionPromiseRef h;
     currentInputRef := currentInputRef h;
     currentOutputRef := currentOutputRef h; heap := heap h |}.

Definition write_mediaStreamRef (v : option MediaStream) (h : Hook) : Hook :=
  {| connectionState := connectionState h; volume := volume h;
     isModelSpeaking := isModelSpeaking h; error := error h;
     messages := messages h; isMuted := isMuted h;
     fluencyFeedback := fluencyFeedback h;
     userTranscript := userTranscript h;
     inputAudioContextRef := inputAudioContextRef h;
     outputAudioContextRef := outputAudioContextRef h;
     mediaStreamRef := v; scriptProcessorRef := scriptProcessorRef h;
     mediaRecorderRef := mediaRecorderRef h;
     audioChunksRef := audioChunksRef h;
     activeSourcesRef := activeSourcesRef h;
     nextStartTimeRef := nextStartTimeRef h;
     sessionPromiseRef := sessionPromiseRef h;
     currentInputRef := currentInputRef h;
     currentOutputRef := currentOutputRef h; heap := heap h |}.

Definition write_scriptProcessorRef (v : option ScriptProcessorNode) (h : Hook) : Hook :=
  {| connectionState := connectionState h; volume := volume h;
     isModelSpeaking := isModelSpeaking h; error := error h;
     messages := messages h; isMuted := isMuted h;
     fluencyFeedback := fluencyFeedback h;
     userTranscript := userTranscript h;
     inputAudioContextRef := inputAudioContextRef h;
     outputAudioContextRef := outputAudioContextRef h;
     mediaStreamRef := mediaStreamRef h; scriptProcessorRef := v;
     mediaRecorderRef := mediaRecorderRef h;
     audioChunksRef := audioChunksRef h;
     activeSourcesRef := activeSourcesRef h;
     nextStartTimeRef := nextStartTimeRef h;
     sessionPromiseRef := sessionPromiseRef h;
     currentInputRef := currentInputRef h;
     currentOutputRef := currentOutputRef h; heap := heap h |}.

Definition write_mediaRecorderRef (v : option MediaRecorder) (h : Hook) : Hook :=
  {| connectionState := connectionState h; volume := volume h;
     isModelSpeaking := isModelSpeaking h; error := error h;
     messages := messages h; isMuted := isMuted h;
     fluencyFeedback := fluencyFeedback h;
     userTranscript := userTranscript h;
     inputAudioContextRef := inputAudioContextRef h;
     outputAudioContextRef := outputAudioContextRef h;
     mediaStreamRef := mediaStreamRef h;
     scriptProcessorRef := scriptProcessorRef h; mediaRecorderRef := v;
     audioChunksRef := audioChunksRef h;
     activeSourcesRef := activeSourcesRef h;
     nextStartTimeRef := nextStartTimeRef h;
     sessionPromiseRef := sessionPromiseRef h;
     currentInputRef := currentInputRef h;
     currentOutputRef := currentOutputRef h; heap := heap h |}.

Definition write_audioChunksRef (v : list Blob) (h : Hook) : Hook :=
  {| connectionState := connectionState h; volume := volume h;
     isModelSpeaking := isModelSpeaking h; error := error h;
     messages := messages h; isMuted := isMuted h;
     fluencyFeedback := fluencyFeedback h;
     userTranscript := userTranscript h;
     inputAudioContextRef := inputAudioContextRef h;
     outputAudioContextRef := outputAudioContextRef h;
     mediaStreamRef := mediaStreamRef h;
     scriptProcessorRef := scriptProcessorRef h;
     mediaRecorderRef := mediaRecorderRef h; audioChunksRef := v;
     activeSourcesRef := activeSourcesRef h;
     nextStartTimeRef := nextStartTimeRef h;
     sessionPromiseRef := sessionPromiseRef h;
     currentInputRef := currentInputRef h;
     currentOutputRef := currentOutputRef h; heap := heap h |}.

Definition write_activeSourcesRef (v : list handle) (h : Hook) : Hook :=
  {| connectionState := connectionState h; volume := volume h;
     isModelSpeaking := isModelSpeaking h; error := error h;
     messages := messages h; isMuted := isMuted h;
     fluencyFeedback := fluencyFeedback h;
     userTranscript := userTranscript h;
     inputAudioContextRef := inputAudioContextRef h;
     outputAudioContextRef := outputAudioContextRef h;
     mediaStreamRef := mediaStreamRef h;
     scriptProcessorRef := scriptProcessorRef h;
     mediaRecorderRef := mediaRecorderRef h;
     audioChunksRef := audioChunksRef h; activeSourcesRef := v;
     nextStartTimeRef := nextStartTimeRef h;
     sessionPromiseRef := sessionPromiseRef h;
     currentInputRef := currentInputRef h;
     currentOutputRef := currentOutputRef h; heap := heap h |}.

Definition write_nextStartTimeRef (v : Q) (h : Hook) : Hook :=
  {| connectionState := connectionState h; volume := volume h;
     isModelSpeaking := isModelSpeaking h; error := error h;
     messages := messages h; isMuted := isMuted h;
     fluencyFeedback := fluencyFeedback h;
     userTranscript := userTranscript h;
     inputAudioContextRef := inputAudioContextRef h;
     outputAudioContextRef := outputAudioContextRef h;
     mediaStreamRef := mediaStreamRef h;
     scriptProcessorRef := scriptProcessorRef h;
     mediaRecorderRef := mediaRecorderRef h;
     audioChunksRef := audioChunksRef h;
     activeSourcesRef := activeSourcesRef h; nextStartTimeRef := v;
     sessionPromiseRef := sessionPromiseRef h;
     currentInputRef := currentInputRef h;
     currentOutputRef := currentOutputRef h; heap := heap h |}.

Definition write_sessionPromiseRef (v : option SessionPromise) (h : Hook) : Hook :=
  {| connectionState := connectionState h; volume := volume h;
     isModelSpeaking := isModelSpeaking h; error := error h;
     messages := messages h; isMuted := isMuted h;
     fluencyFeedback := fluencyFeedback h;
     userTranscript := userTranscript h;
     inputAudioContextRef := inputAudioContextRef h;
     outputAudioContextRef := outputAudioContextRef h;
     mediaStreamRef := mediaStreamRef h;
     scriptProcessorRef := scriptProcessorRef h;
     mediaRecorderRef := mediaRecorderRef h;
     audioChunksRef := audioChunksRef h;
     activeSourcesRef := activeSourcesRef h;
     nextStartTimeRef := nextStartTimeRef h; sessionPromiseRef := v;
     currentInputRef := currentInputRef h;
     currentOutputRef := currentOutputRef h; heap := heap h |}.

Definition write_currentInputRef (v : jsstring) (h : Hook) : Hook :=
  {| connectionState := connectionState h; volume := volume h;
     isModelSpeaking := isModelSpeaking h; error := error h;
     messages := messages h; isMuted := isMuted h;
     fluencyFeedback := fluencyFeedback h;
     userTranscript := userTranscript h;
     inputAudioContextRef := inputAudioContextRef h;
     outputAudioContextRef := outputAudioContextRef h;
     mediaStreamRef := mediaStreamRef h;
     scriptProcessorRef := scriptProcessorRef h;
     mediaRecorderRef := mediaRecorderRef h;
     audioChunksRef := audioChunksRef h;
     activeSourcesRef := activeSourcesRef h;
     nextStartTimeRef := nextStartTimeRef h;
     sessionPromiseRef := sessionPromiseRef h; currentInputRef := v;
     currentOutputRef := currentOutputRef h; heap := heap h |}.

Definition write_currentOutputRef (v : jsstring) (h : Hook) : Hook :=
  {| connectionState := connectionState h; volume := volume h;
     isModelSpeaking := isModelSpeaking h; error := error h;
     messages := messages h; isMuted := isMuted h;
     fluencyFeedback := fluencyFeedback h;
     userTranscript := userTranscript h;
     inputAudioContextRef := inputAudioContextRef h;
     outputAudioContextRef := outputAudioContextRef h;
     mediaStreamRef := mediaStreamRef h;
     scriptProcessorRef := scriptProcessorRef h;
     mediaRecorderRef := mediaRecorderRef h;
     audioChunksRef := audioChunksRef h;
     activeSourcesRef := activeSourcesRef h;
     nextStartTimeRef := nextStartTimeRef h;
     sessionPromiseRef := sessionPromiseRef h;
     currentInputRef := currentInputRef h; currentOutputRef := v;
     heap := heap h |}.

Definition write_heap (v : handle) (h : Hook) : Hook :=
  {| connectionState := connectionState h; volume := volume h;
     isModelSpeaking := isModelSpeaking h; error := error h;
     messages := messages h; isMuted := isMuted h;
     fluencyFeedback := fluencyFeedback h;
     userTranscript := userTranscript h;
     inputAudioContextRef := inputAudioContextRef h;
     outputAudioContextRef := outputAudioContextRef h;
     mediaStreamRef := mediaStreamRef h;
     scriptProcessorRef := scriptProcessorRef h;
     mediaRecorderRef := mediaRecorderRef h;
     audioChunksRef := audioChunksRef h;
     activeSourcesRef := activeSourcesRef h;
     nextStartTimeRef := nextStartTimeRef h;
     sessionPromiseRef := sessionPromiseRef h;
     currentInputRef := currentInputRef h;
     currentOutputRef := currentOutputRef h; heap := v |}.

(** ** Computations of the hook

    A callback runs on the hook state, issues effects in order and
    completes normally or by throwing.  Writes made before a throw
    stay. *)

Inductive Completion (A : Type) := Normal (a : A) | Throw (e : JsError).
Arguments Throw {A} e.

Definition Act (A : Type) : Type := Hook -> Completion A * Hook * list Effect.

Definition ret {A} (a : A) : Act A := fun h => (Normal a, h, []).

Definition bind {A B} (m : Act A) (k : A -> Act B) : Act B :=
  fun h =>
    match m h with
    | (Normal a, h1, o1) =>
        match k a h1 with (r, h2, o2) => (r, h2, o1 ++ o2) end
    | (Throw e, h1, o1) => (Throw e, h1, o1)
    end.

Declare Scope act_scope.
Delimit Scope act_scope with act.
Bind Scope act_scope with Act.
Notation "x <- m ;; k" := (bind m (fun x => k))
  (at level 61, m at next level, right associativity) : act_scope.
Notation "m ;; k" := (bind m (fun _ => k))
  (at level 61, right associativity) : act_scope.
Local Open Scope act_scope.

(** [throw e] *)
Definition throw {A} (e : JsError) : Act A := fun h => (Throw e, h, []).

(** [try { m } catch (e) { handler e }] *)
Definition tryCatch {A} (m : Act A) (handler : JsError -> Act A) : Act A :=
  fun h =>
    match m h with
    | (Normal a, h1, o1) => (Normal a, h1, o1)
    | (Throw e, h1, o1) =>
        match handler e h1 with (r, h2, o2) => (r, h2, o1 ++ o2) end
    end.

Definition read {A} (cell : Hook -> A) : Act A := fun h => (Normal (cell h), h, []).
Definition update (f : Hook -> Hook) : Act unit := fun h => (Normal tt, f h, []).
Definition emit (e : Effect) : Act unit := fun h => (Normal tt, h, [e]).

(** A call into the browser or the SDK whose outcome the environment
    decides. *)
Definition call {A} (outcome : Completion A) : Act A := fun h => (outcome, h, []).

(** Allocation of a new object. *)
Definition new : Act handle :=
  fun h => (Normal (heap h), write_heap (S (heap h)) h, []).

(** Allocation of [n] new objects, at consecutive addresses. *)
Definition newN (n : nat) : Act (list handle) :=
  fun h => (Normal (seq (heap h) n), write_heap (heap h + n)%nat h, []).

Definition when (b : bool) (m : Act unit) : Act unit :=
  if b then m else ret tt.

(** [if (ref.current) { k ref.current }] *)
Definition whenSome {A} (cell : Hook -> option A) (k : A -> Act unit) : Act unit :=
  v <- read cell ;;
  match v with
  | Some a => k a
  | None => ret tt
  end.

(** [xs.forEach(f)] *)
Fixpoint forEach {A} (xs : list A) (f : A -> Act unit) : Act unit :=
  match xs with
  | [] => ret tt
  | x :: xs' => f x ;; forEach xs' f
  end.

Definition stateOf {A} (r : Completion A * Hook * list Effect) : Hook := snd (fst r).
Definition effectsOf {A} (r : Completion A * Hook * list Effect) : list Effect := snd r.
Definition completionOf {A} (r : Completion A * Hook * list Effect) : Completion A :=
  fst (fst r).

(** ** [Set<AudioBufferSourceNode>]: insertion-ordered, no duplicates *)

Definition Set_has (x : handle) (s : list handle) : bool :=
  existsb (Nat.eqb x) s.

Definition Set_add (x : handle) (s : list handle) : list handle :=
  if Set_has x s then s else s ++ [x].

Definition Set_delete (x : handle) (s : list handle) : list handle :=
  filter (fun y => negb (Nat.eqb x y)) s.

(** ** [stopAudioProcessing] *)

Definition isInactive (s : RecordingState) : bool :=
  match s with inactive => true | _ => false end.

Definition stopAudioProcessing : Act unit :=
  whenSome mediaRecorderRef (fun r =>
    when (negb (isInactive (state r)))
      (emit (RecorderStop (recorder r)) ;;
       update (write_mediaRecorderRef
                 (Some {| recorder := recorder r; state := inactive |})))) ;;
  whenSome mediaStreamRef (fun s =>
    forEach (getTracks s) (fun track => emit (TrackStop track)) ;;
    update (write_mediaStreamRef None)) ;;
  whenSome scriptProcessorRef (fun p =>
    emit (ProcessorDisconnect (node p)) ;;
    update (write_scriptProcessorRef None)) ;;
  whenSome inputAudioContextRef (fun c =>
    emit (ContextClose (ctx c)) ;;
    update (write_inputAudioContextRef None)) ;;
  whenSome outputAudioContextRef (fun c =>
    emit (ContextClose (ctx c)) ;;
    update (write_outputAudioContextRef None)) ;;
  sources <- read activeSourcesRef ;;
  forEach sources (fun source =>
    tryCatch (emit (SourceStop source)) (fun _ => ret tt)) ;;
  update (write_activeSourcesRef []) ;;
  update (write_nextStartTimeRef 0) ;;
  update (setIsModelSpeaking false) ;;
  update (setVolume 0) ;;
  update (setFluencyFeedback neutral) ;;
  update (setUserTranscript []).

(** ** The callbacks registered with the remote session *)

(** [message.serverContent?.modelTurn?.parts?.[0]?.inlineData?.data] *)
Definition audioDataOf (m : GenAI.LiveServerMessage) : option jsstring :=
  match GenAI.serverContent m with
  | Some sc =>
      match GenAI.modelTurn sc with
      | Some turn =>
          match GenAI.parts turn with
          | Some (part :: _) =>
              match GenAI.inlineData part with
              | Some blob => GenAI.data blob
              | None => None
              end
          | _ => None
          end
      | None => None
      end
  | None => None
  end.

(** [message.serverContent?.inputTranscription?.text] and its output
    twin. *)
Definition transcriptionText
    (field : GenAI.LiveServerContent -> option GenAI.Transcription)
    (m : GenAI.LiveServerMessage) : option jsstring :=
  match GenAI.serverContent m with
  | Some sc =>
      match field sc with
      | Some t => GenAI.text t
      | None => None
      end
  | None => None
  end.

(** [message.serverContent?.turnComplete] as a condition. *)
Definition turnCompleteOf (m : GenAI.LiveServerMessage) : bool :=
  match GenAI.serverContent m with
  | Some sc =>
      match GenAI.turnComplete sc with
      | Some b => b
      | None => false
      end
  | None => false
  end.

Definition truthyText (t : option jsstring) : bool :=
  match t with
  | Some s => truthy s
  | None => false
  end.

(** What the environment contributes to one run of the message
    handler: the reading of [ctx.currentTime] on line 484, before the
    [await]; the outcome of [decodeAudioData]; the reading the same
    clock gives when [source.start] is called on line 494, after the
    [await], which the handler never takes; for each of the two
    message updaters, whether React runs it at the call or at the
    render after the handler; and the readings of [Date.now()] in the
    updaters. *)
Record MessageEnv := {
  currentTime : Q;
  decodeAudioData : Completion AudioBuffer;
  currentTimeAtStart : Q;
  userUpdaterAtCall : bool;
  modelUpdaterAtCall : bool;
  dateNowUser : N;
  dateNowModel : N }.

(** The ['ended'] listener of the buffer source [source]. *)
Definition onended (source : handle) : Act unit :=
  update (fun h => write_activeSourcesRef (Set_delete source (activeSourcesRef h)) h) ;;
  active <- read activeSourcesRef ;;
  when (Nat.eqb (List.length active) 0) (update (setIsModelSpeaking false)).

(** The audio part of the handler (the first [if]). *)
Definition playAudio (env : MessageEnv) (m : GenAI.LiveServerMessage) : Act unit :=
  out <- read outputAudioContextRef ;;
  match audioDataOf m, out with
  | Some audioData, Some _ =>
      when (truthy audioData)
        (update (setIsModelSpeaking true) ;;
         update (fun h =>
           write_nextStartTimeRef (Qmax (nextStartTimeRef h) (currentTime env)) h) ;;
         tryCatch
           (buffer <- call (decodeAudioData env) ;;
            source <- new ;;
            start <- read nextStartTimeRef ;;
            emit (SourceStart source start buffer) ;;
            update (fun h =>
              write_activeSourcesRef (Set_add source (activeSourcesRef h)) h) ;;
            update (fun h =>
              write_nextStartTimeRef (nextStartTimeRef h + duration buffer) h))
           (fun _ => ret tt))
  | _, _ => ret tt
  end.

Definition appendInputTranscription (m : GenAI.LiveServerMessage) : Act unit :=
  match transcriptionText GenAI.inputTranscription m with
  | Some text =>
      when (truthy text)
        (update (fun h => write_currentInputRef (currentInputRef h ++ text) h) ;;
         update (fun h => setUserTranscript (currentInputRef h) h))
  | None => ret tt
  end.

Definition appendOutputTranscription (m : GenAI.LiveServerMessage) : Act unit :=
  match transcriptionText GenAI.outputTranscription m with
  | Some text =>
      when (truthy text)
        (update (fun h => write_currentOutputRef (currentOutputRef h ++ text) h))
  | None => ret tt
  end.

(** The argument of [setMessages(prev => [...prev, make()])]: the
    element it adds is built when React runs the updater, from the
    cells as they are then. *)
Definition Updater := Hook -> ChatMessage.

(** [setMessages(prev => [...prev, make()])]. The call hands React the
    updater and changes no cell. React runs the updater at the call
    when it finds no update pending on the component, and otherwise at
    the next render; [atCall] says which. The updater handed on to the
    render is [make] itself, or the element it built at the call. *)
Definition setMessagesAppend (atCall : bool) (make : Updater) : Act Updater :=
  h <- read (fun h => h) ;;
  ret (if atCall then fun _ => make h else make).

(** The render that follows the handler applies the pending updaters
    in the order of the calls. *)
Definition render (pending : list Updater) : Act unit :=
  forEach pending (fun make =>
    update (fun h => setMessages (messages h ++ [make h]) h)).

(** The [turnComplete] branch. Each reset of an accumulator follows
    the [setMessages] call and precedes the render. *)
Definition finishTurn (env : MessageEnv) (m : GenAI.LiveServerMessage) : Act unit :=
  when (turnCompleteOf m)
    (input <- read currentInputRef ;;
     pendingUser <-
       (if truthy (trim input)
        then
          make <- setMessagesAppend (userUpdaterAtCall env)
                    (fun h => {| id := numberToString (dateNowUser env) ++ lit "-u";
                                 role := user; text := currentInputRef h |}) ;;
          update (write_currentInputRef []) ;;
          ret [make]
        else ret []) ;;
     output <- read currentOutputRef ;;
     pendingModel <-
       (if truthy (trim output)
        then
          make <- setMessagesAppend (modelUpdaterAtCall env)
                    (fun h => {| id := numberToString (dateNowModel env) ++ lit "-m";
                                 role := model; text := currentOutputRef h |}) ;;
          update (write_currentOutputRef []) ;;
          ret [make]
        else ret []) ;;
     render (pendingUser ++ pendingModel)).

Definition onmessage (env : MessageEnv) (m : GenAI.LiveServerMessage) : Act unit :=
  playAudio env m ;;
  appendInputTranscription m ;;
  appendOutputTranscription m ;;
  finishTurn env m.

Definition greeting : jsstring := lit "Hello Koli! Start the IELTS session.".

(** [onopen]; awaiting an absent promise yields no session, and the
    call on it throws. *)
Definition onopen : Act unit :=
  update (setConnectionState CONNECTED) ;;
  p <- read sessionPromiseRef ;;
  match p with
  | Some s => emit (SessionSend (session s) greeting)
  | None => throw {| message := Some (lit "session is undefined") |}
  end.

Definition onclose : Act unit :=
  update (setConnectionState DISCONNECTED) ;;
  stopAudioProcessing.

Definition BILLING_REQUIRED : jsstring := lit "BILLING_REQUIRED".
Definition networkFailed : jsstring := lit "Network connection failed.".
Definition notFoundSignature : jsstring := lit "Requested entity was not found".
Definition signature404 : jsstring := lit "404".

(** [err?.message || ""] *)
Definition messageOf (err : option JsError) : jsstring :=
  match err with
  | Some e =>
      match message e with
      | Some s => s
      | None => []
      end
  | None => []
  end.

Definition onerror (err : option JsError) : Act unit :=
  emit ConsoleError ;;
  let msg := messageOf err in
  update (setConnectionState ERROR) ;;
  (if includes msg notFoundSignature || includes msg signature404
   then update (setError (Some BILLING_REQUIRED))
   else update (setError (Some (or_else msg networkFailed)))) ;;
  stopAudioProcessing.

(** ** [connect] *)

(** What one call of [connect] takes from outside the hook's cells:
    the two values its closure holds from the render that built it
    (the dependencies [systemInstruction] and [isMuted] of its
    [useCallback]; [closedIsMuted] need not be the flag's value in the
    state the call runs in), and the outcome of every call that can
    throw or reject, in program order; [getUserMedia] grants a stream
    with that many tracks. *)
Record ConnectEnv := {
  systemInstruction : jsstring;
  closedIsMuted : bool;
  newInputContext : Completion unit;
  newOutputContext : Completion unit;
  resumeInput : Completion unit;
  resumeOutput : Completion unit;
  getUserMedia : Completion nat;
  newMediaRecorder : Completion unit;
  recorderStart : Completion unit;
  createMediaStreamSource : Completion unit;
  createScriptProcessor : Completion unit;
  connectSource : Completion unit;
  connectProcessor : Completion unit;
  newGoogleGenAI : Completion unit;
  liveConnect : Completion unit }.

Definition initFailed : jsstring := lit "Failed to initialize audio stream.".

(** The body of the [try] block. *)
Definition connectBody (env : ConnectEnv) : Act unit :=
  update (setConnectionState CONNECTING) ;;
  update (setError None) ;;
  update (setMessages []) ;;
  update (write_currentInputRef []) ;;
  update (write_currentOutputRef []) ;;
  update (setUserTranscript []) ;;
  update (write_audioChunksRef []) ;;
  call (newInputContext env) ;;
  cin <- new ;;
  emit (NewAudioContext cin) ;;
  update (write_inputAudioContextRef (Some {| ctx := cin |})) ;;
  call (newOutputContext env) ;;
  cout <- new ;;
  emit (NewAudioContext cout) ;;
  update (write_outputAudioContextRef (Some {| ctx := cout |})) ;;
  call (resumeInput env) ;;
  emit (ContextResume cin) ;;
  call (resumeOutput env) ;;
  emit (ContextResume cout) ;;
  n <- call (getUserMedia env) ;;
  tracks <- newN n ;;
  emit (GetUserMedia tracks) ;;
  update (write_mediaStreamRef (Some {| getTracks := tracks |})) ;;
  call (newMediaRecorder env) ;;
  r <- new ;;
  emit (NewMediaRecorder r) ;;
  update (write_mediaRecorderRef (Some {| recorder := r; state := inactive |})) ;;
  call (recorderStart env) ;;
  emit (RecorderStart r) ;;
  update (write_mediaRecorderRef (Some {| recorder := r; state := recording |})) ;;
  call (createMediaStreamSource env) ;;
  call (createScriptProcessor env) ;;
  p <- new ;;
  emit (CreateScriptProcessor p) ;;
  update (write_scriptProcessorRef
            (Some {| node := p; capturedIsMuted := closedIsMuted env |})) ;;
  call (connectSource env) ;;
  emit (NodeConnect p) ;;
  call (connectProcessor env) ;;
  emit (NodeConnect p) ;;
  call (newGoogleGenAI env) ;;
  call (liveConnect env) ;;
  s <- new ;;
  emit (LiveConnect s (systemInstruction env)) ;;
  update (write_sessionPromiseRef (Some {| session := s |})).

(** The [catch] block. *)
Definition connectCatch (err : JsError) : Act unit :=
  update (setError (Some (or_else (messageOf (Some err)) initFailed))) ;;
  update (setConnectionState ERROR) ;;
  stopAudioProcessing.

Definition connect (env : ConnectEnv) : Act unit :=
  tryCatch (connectBody env) connectCatch.

(** [recorder.ondataavailable] *)
Definition ondataavailable (data : Blob) : Act unit :=
  when (0 <? size data)
    (update (fun h => write_audioChunksRef (audioChunksRef h ++ [data]) h)).

(** [processor.onaudioprocess] of the node [p], on a frame whose
    root mean square is [rms]; [settled] is how the session promise
    settles. The frame is sent in the promise's [then], so only when
    it is fulfilled; the [catch] swallows a rejection. *)
Definition onaudioprocess (p : ScriptProcessorNode) (rms : Q)
    (settled : Completion unit) : Act unit :=
  update (setVolume (Qmin (rms * 5) 1)) ;;
  promise <- read sessionPromiseRef ;;
  match promise with
  | Some s =>
      when (negb (capturedIsMuted p))
        (tryCatch
           (call settled ;;
            emit (SessionSendRealtimeInput (session s)))
           (fun _ => ret tt))
  | None => ret tt
  end.

(** ** [disconnect] *)

(** Whether the awaited session promise is fulfilled or rejected, and
    whether [close()] on the session throws. *)
Record DisconnectEnv := {
  awaitSession : Completion unit;
  sessionClose : Completion unit }.

Definition webm : jsstring := lit "audio/webm".

Definition disconnect (env : DisconnectEnv) : Act (option Blob) :=
  whenSome sessionPromiseRef (fun s =>
    tryCatch
      (call (awaitSession env) ;;
       emit (SessionClose (session s)) ;;
       call (sessionClose env))
      (fun _ => ret tt) ;;
    update (write_sessionPromiseRef None)) ;;
  stopAudioProcessing ;;
  update (setConnectionState DISCONNECTED) ;;
  chunks <- read audioChunksRef ;;
  ret (if 0 <? List.length chunks then Some (newBlob chunks webm) else None).

(** ** The event loop

    Everything that can run on a hook instance. *)

Inductive Event :=
| Connect (env : ConnectEnv)
| Disconnect (env : DisconnectEnv)
| Open
| Message (env : MessageEnv) (m : GenAI.LiveServerMessage)
| Close
| Error (err : option JsError)
| Ended (source : handle)
| DataAvailable (data : Blob)
| AudioProcess (p : ScriptProcessorNode) (rms : Q) (settled : Completion unit)
| SetIsMuted (b : bool).

(** Runs a callback and drops its completion. *)
Definition done {A} (m : Act A) : Act unit :=
  fun h => match m h with (_, h', o) => (Normal tt, h', o) end.

Definition handler (e : Event) : Act unit :=
  match e with
  | Connect env => connect env
  | Disconnect env => done (disconnect env)
  | Open => done onopen
  | Message env m => onmessage env m
  | Close => onclose
  | Error err => onerror err
  | Ended source => onended source
  | DataAvailable data => ondataavailable data
  | AudioProcess p rms settled => onaudioprocess p rms settled
  | SetIsMuted b => update (setIsMuted b)
  end.

Definition step (e : Event) (h : Hook) : Hook := stateOf (handler e h).

Definition run (es : list Event) (h : Hook) : Hook :=
  fold_left (fun h e => step e h) es h.

(** ** Reading the effects *)

Definition Kind_eqb (a b : Kind) : bool :=
  match a, b with
  | Context, Context | Track, Track | Recorder, Recorder
  | Processor, Processor | Source, Source | Session, Session => true
  | _, _ => false
  end.

Definition Device_eqb (a b : Device) : bool :=
  Kind_eqb (fst a) (fst b) && Nat.eqb (snd a) (snd b).

(** The devices held after one more effect. *)
Definition perform (held : list Device) (e : Effect) : list Device :=
  match releases e with
  | Some d => filter (fun x => negb (Device_eqb d x)) held
  | None => acquires e ++ held
  end.

(** The devices a list of effects leaves acquired. *)
Definition heldAfter (es : list Effect) : list Device :=
  fold_left perform es [].

(** The buffer sources a list of effects schedules: start time and
    buffer, in scheduling order. *)
Fixpoint scheduled (es : list Effect) : list (Q * AudioBuffer) :=
  match es with
  | [] => []
  | SourceStart _ when buffer :: es' => (when, buffer) :: scheduled es'
  | _ :: es' => scheduled es'
  end.

(** The condition [audioData && outputAudioContextRef.current] of the
    message handler. *)
Definition plays (m : GenAI.LiveServerMessage) (h : Hook) : bool :=
  match audioDataOf m, outputAudioContextRef h with
  | Some audioData, Some _ => truthy audioData
  | _, _ => false
  end.

(** The transcription fragment a message carries, [''] when it
    carries none. *)
Definition fragment
    (field : GenAI.LiveServerContent -> option GenAI.Transcription)
    (m : GenAI.LiveServerMessage) : jsstring :=
  match transcriptionText field m with
  | Some text => text
  | None => []
  end.

(** The three parts of the message handler that deal with text. *)
Definition transcribe (env : MessageEnv) (m : GenAI.LiveServerMessage) (h : Hook) : Hook :=
  stateOf (finishTurn env m
    (stateOf (appendOutputTranscription m
      (stateOf (appendInputTranscription m h))))).

(** Whether a message finalizes the utterance [acc]: it signals the
    end of the turn and [acc.trim()] is truthy. *)
Definition finalizes (m : GenAI.LiveServerMessage) (acc : jsstring) : bool :=
  turnCompleteOf m && truthy (trim acc).

Definition isConnect (e : Event) : bool :=
  match e with
  | Connect _ => true
  | _ => false
  end.

(** The message handler on a sequence of server messages. *)
Fixpoint onmessages (ms : list (MessageEnv * GenAI.LiveServerMessage)) : Act unit :=
  match ms with
  | [] => ret tt
  | (env, m) :: ms' => onmessage env m ;; onmessages ms'
  end.

(** The first call of [connect] that throws, if any, in program
    order. *)
Definition thrown {A} (c : Completion A) : option JsError :=
  match c with
  | Normal _ => None
  | Throw e => Some e
  end.

Definition firstOf (a b : option JsError) : option JsError :=
  match a with
  | Some e => Some e
  | None => b
  end.

Definition firstThrow (env : ConnectEnv) : option JsError :=
  firstOf (thrown (newInputContext env))
 (firstOf (thrown (newOutputContext env))
 (firstOf (thrown (resumeInput env))
 (firstOf (thrown (resumeOutput env))
 (firstOf (thrown (getUserMedia env))
 (firstOf (thrown (newMediaRecorder env))
 (firstOf (thrown (recorderStart env))
 (firstOf (thrown (createMediaStreamSource env))
 (firstOf (thrown (createScriptProcessor env))
 (firstOf (thrown (connectSource env))
 (firstOf (thrown (connectProcessor env))
 (firstOf (thrown (newGoogleGenAI env))
          (thrown (liveConnect env))))))))))))).

(** ** What the teardown does, in closed form *)

Definition stopped (r : option MediaRecorder) : option MediaRecorder :=
  match r with
  | Some r => Some {| recorder := recorder r; state := inactive |}
  | None => None
  end.

Definition released (h : Hook) : Hook :=
  {| connectionState := connectionState h; volume := 0;
     isModelSpeaking := false; error := error h; messages := messages h;
     isMuted := isMuted h; fluencyFeedback := neutral; userTranscript := [];
     inputAudioContextRef := None; outputAudioContextRef := None;
     mediaStreamRef := None; scriptProcessorRef := None;
     mediaRecorderRef := stopped (mediaRecorderRef h);
     audioChunksRef := audioChunksRef h; activeSourcesRef := [];
     nextStartTimeRef := 0; sessionPromiseRef := sessionPromiseRef h;
     currentInputRef := currentInputRef h;
     currentOutputRef := currentOutputRef h; heap := heap h |}.

Definition releaseEffects (h : Hook) : list Effect :=
  match mediaRecorderRef h with
  | Some r => if isInactive (state r) then [] else [RecorderStop (recorder r)]
  | None => []
  end
  ++ match mediaStreamRef h with
     | Some s => List.map TrackStop (getTracks s)
     | None => []
     end
  ++ match scriptProcessorRef h with
     | Some p => [ProcessorDisconnect (node p)]
     | None => []
     end
  ++ match inputAudioContextRef h with
     | Some c => [ContextClose (ctx c)]
     | None => []
     end
  ++ match outputAudioContextRef h with
     | Some c => [ContextClose (ctx c)]
     | None => []
     end
  ++ List.map SourceStop (activeSourcesRef h).

(** The refs of [h] reach every device of [held]. *)
Definition reaches (h : Hook) (held : list Device) : Prop :=
  forall d, In d held ->
    match d with
    | (Context, c) =>
        inputAudioContextRef h = Some {| ctx := c |}
        \/ outputAudioContextRef h = Some {| ctx := c |}
    | (Track, t) =>
        exists s, mediaStreamRef h = Some s /\ In t (getTracks s)
    | (Recorder, r) =>
        mediaRecorderRef h = Some {| recorder := r; state := recording |}
    | (Processor, p) =>
        exists muted,
          scriptProcessorRef h = Some {| node := p; capturedIsMuted := muted |}
    | (Source, src) => In src (activeSourcesRef h)
    | (Session, _) => False
    end.

(** ** Sample states and messages *)

(** A session as [connect] leaves it when every call succeeds and the
    granted stream has one track, then opened. *)
Definition allGood : ConnectEnv :=
  {| systemInstruction := lit "Act as an IELTS examiner.";
     closedIsMuted := false;
     newInputContext := Normal tt; newOutputContext := Normal tt;
     resumeInput := Normal tt; resumeOutput := Normal tt;
     getUserMedia := Normal 1%nat;
     newMediaRecorder := Normal tt; recorderStart := Normal tt;
     createMediaStreamSource := Normal tt; createScriptProcessor := Normal tt;
     connectSource := Normal tt; connectProcessor := Normal tt;
     newGoogleGenAI := Normal tt; liveConnect := Normal tt |}.

Definition connected : Hook := run [Connect allGood; Open] initial.

(** The user refuses the microphone. *)
Definition permissionDenied : JsError :=
  {| message := Some (lit "Permission denied") |}.

Definition micDenied : ConnectEnv :=
  {| systemInstruction := lit "Act as an IELTS examiner.";
     closedIsMuted := false;
     newInputContext := Normal tt; newOutputContext := Normal tt;
     resumeInput := Normal tt; resumeOutput := Normal tt;
     getUserMedia := Throw permissionDenied;
     newMediaRecorder := Normal tt; recorderStart := Normal tt;
     createMediaStreamSource := Normal tt; createScriptProcessor := Normal tt;
     connectSource := Normal tt; connectProcessor := Normal tt;
     newGoogleGenAI := Normal tt; liveConnect := Normal tt |}.

(** A message that carries one audio payload. *)
Definition audioMessage (payload : jsstring) : GenAI.LiveServerMessage :=
  {| GenAI.serverContent := Some
       {| GenAI.modelTurn := Some
            {| GenAI.parts := Some
                 [ {| GenAI.inlineData := Some {| GenAI.data := Some payload |} |} ] |};
          GenAI.inputTranscription := None;
          GenAI.outputTranscription := None;
          GenAI.turnComplete := None |} |}.

(** A message that only signals the end of the turn. *)
Definition turnCompleteMessage : GenAI.LiveServerMessage :=
  {| GenAI.serverContent := Some
       {| GenAI.modelTurn := None; GenAI.inputTranscription := None;
          GenAI.outputTranscription := None;
          GenAI.turnComplete := Some true |} |}.

Definition inputFragment (s : jsstring) : GenAI.LiveServerMessage :=
  {| GenAI.serverContent := Some
       {| GenAI.modelTurn := None;
          GenAI.inputTranscription := Some {| GenAI.text := Some s |};
          GenAI.outputTranscription := None;
          GenAI.turnComplete := None |} |}.

(** One second of audio at 24 kHz. *)
Definition oneSecond : AudioBuffer := {| frames := 24000; sampleRate := 24000 |}.

(** Decoding gives [b] while the output clock goes from [now] to
    [later]; React runs the message updaters at the render. *)
Definition decodedLate (now later : Q) (b : AudioBuffer) : MessageEnv :=
  {| currentTime := now; decodeAudioData := Normal b;
     currentTimeAtStart := later;
     userUpdaterAtCall := false; modelUpdaterAtCall := false;
     dateNowUser := 1700000000000; dateNowModel := 1700000000000 |}.

(** Decoding gives [b] before the output clock moves. *)
Definition decoded (now : Q) (b : AudioBuffer) : MessageEnv :=
  decodedLate now now b.

Definition undecodable (now : Q) : MessageEnv :=
  {| currentTime := now;
     decodeAudioData := Throw {| message := Some (lit "InvalidCharacterError") |};
     currentTimeAtStart := now;
     userUpdaterAtCall := false; modelUpdaterAtCall := false;
     dateNowUser := 1700000000000; dateNowModel := 1700000000000 |}.

(** While a source is active the flag is up. *)
Definition playingImpliesSpeaking (h : Hook) : Prop :=
  activeSourcesRef h = [] \/ isModelSpeaking h = true.

(** Whether every frame of a run has a root mean square that is not
    negative, as a root mean square is. *)
Definition nonNegativeFrames (es : list Event) : Prop :=
  Forall (fun e => match e with
                   | AudioProcess _ rms _ => 0 <= rms
                   | _ => True
                   end) es.

(** Two buffers of one second each, scheduled back to back on a
    connected session. *)
Definition twoPlaying : Hook :=
  run [Message (decoded 0 oneSecond) (audioMessage (lit "AAAA"));
       Message (decoded (1 # 2) oneSecond) (audioMessage (lit "AAAA"))] connected.

(** ** The PCM codec of [utils/audioUtils]

    Samples are rationals: a finite 32-bit float is one, and scaling by
    [32768] is exact on them. *)

Module Pcm.

(** *** Base64 *)

Definition alphabet : jsstring :=
  lit "ABCDEFGHIJKLMNOPQRSTUVWXYZabcdefghijklmnopqrstuvwxyz0123456789+/".

Definition pad : code_unit := 61%N.

Definition sextetChar (v : N) : code_unit := nth (N.to_nat v) alphabet pad.

Definition charSextet (c : code_unit) : option N :=
  (if (65 <=? c) && (c <=? 90) then Some (c - 65)
   else if (97 <=? c) && (c <=? 122) then Some (c - 71)
   else if (48 <=? c) && (c <=? 57) then Some (c + 4)
   else if c =? 43 then Some 62
   else if c =? 47 then Some 63
   else None)%N.

(** [btoa] on a sequence of bytes. *)
Fixpoint btoa (bytes : list N) : jsstring :=
  match bytes with
  | [] => []
  | [a] =>
      [sextetChar (a / 4); sextetChar ((a mod 4) * 16); pad; pad]%N
  | [a; b] =>
      [sextetChar (a / 4); sextetChar ((a mod 4) * 16 + b / 16);
       sextetChar ((b mod 16) * 4); pad]%N
  | a :: b :: c :: rest =>
      [sextetChar (a / 4); sextetChar ((a mod 4) * 16 + b / 16);
       sextetChar ((b mod 16) * 4 + c / 64); sextetChar (c mod 64)]%N
      ++ btoa rest
  end.

Definition isNil {A} (l : list A) : bool :=
  match l with [] => true | _ :: _ => false end.

(** [atob], to bytes; [None] where it throws. *)
Fixpoint atob (s : jsstring) : option (list N) :=
  match s with
  | [] => Some []
  | c1 :: c2 :: c3 :: c4 :: rest =>
      match charSextet c1, charSextet c2 with
      | Some s1, Some s2 =>
          let b1 := (s1 * 4 + s2 / 16)%N in
          if (c3 =? pad)%N then
            if (c4 =? pad)%N && isNil rest then Some [b1] else None
          else
            match charSextet c3 with
            | Some s3 =>
                let b2 := ((s2 mod 16) * 16 + s3 / 4)%N in
                if (c4 =? pad)%N then
                  if isNil rest then Some [b1; b2] else None
                else
                  match charSextet c4, atob rest with
                  | Some s4, Some bytes =>
                      Some (b1 :: b2 :: ((s3 mod 4) * 64 + s4)%N :: bytes)
                  | _, _ => None
                  end
            | None => None
            end
      | _, _ => None
      end
  | _ => None
  end.

(** *** Signed 16-bit little-endian integers *)

Definition int16Bytes (i : Z) : list N :=
  let u := Z.to_N (i mod 65536) in [u mod 256; u / 256]%N.

Definition bytesInt16 (lo hi : N) : Z :=
  let u := Z.of_N (lo + 256 * hi) in
  if (32768 <=? u)%Z then (u - 65536)%Z else u.

Fixpoint littleEndian (ints : list Z) : list N :=
  match ints with
  | [] => []
  | i :: ints' => int16Bytes i ++ littleEndian ints'
  end.

(** [None] on an odd number of bytes. *)
Fixpoint fromLittleEndian (bytes : list N) : option (list Z) :=
  match bytes with
  | [] => Some []
  | lo :: hi :: rest =>
      match fromLittleEndian rest with
      | Some ints => Some (bytesInt16 lo hi :: ints)
      | None => None
      end
  | [_] => None
  end.

(** *** Samples *)

(** The boundary value of an out-of-range sample. *)
Definition clamp (s : Q) : Q := Qmax (-1) (Qmin 1 s).

Definition saturate (i : Z) : Z := Z.max (-32768) (Z.min 32767 i).

Definition step : Q := 1 # 32768.

Definition decodeSample (i : Z) : Q := inject_Z i / 32768.

Section Rounding.

(** The conversion of a scaled sample to an integer. *)
Variable round : Q -> Z.

Definition encodeSample (s : Q) : Z := saturate (round (clamp s * 32768)).

Record PcmBlob := { data : jsstring; mimeType : jsstring }.

(** Modelled from the spec: [createPcmBlob] of [utils/audioUtils],
    which is not among the sources: samples in [[-1, 1]] become
    signed 16-bit little-endian integers, saturating at the
    boundaries, then base64, tagged as 16 kHz PCM. *)
Definition createPcmBlob (samples : list Q) : PcmBlob :=
  {| data := btoa (littleEndian (List.map encodeSample samples));
     mimeType := lit "audio/pcm;rate=16000" |}.

End Rounding.

(** Modelled from the spec: the sample conversion of
    [decodeAudioData] of [utils/audioUtils], which is not among the
    sources: the inverse of the encoding, on a base64 payload. *)
Definition decodePcm (payload : jsstring) : option (list Q) :=
  match atob payload with
  | Some bytes =>
      match fromLittleEndian bytes with
      | Some ints => Some (List.map decodeSample ints)
      | None => None
      end
  | None => None
  end.

(** Conversion by dropping the fraction, as a store into an
    [Int16Array] does. *)
Definition truncate (q : Q) : Z :=
  if Qle_bool 0 q then Qfloor q else Qceiling q.

(** The decoded sample [y] reproduces the sample [x]: to within one
    step when [x] is in range, as the boundary value to within one
    step when it is not. *)
Definition within (x y : Q) : Prop :=
  (-1 <= x <= 1 -> Qabs (y - x) <= step)
  /\ (x < -1 -> Qabs (y - -1) <= step)
  /\ (1 < x -> Qabs (y - 1) <= step).

End Pcm.

(** ** The countdown of [components/Timer.tsx] *)

Module Timer.

(** The hook [useTimer]: the time left, the two props it depends on,
    and how many times [onComplete] was called. A time is a rational
    here and a double in the source. The two agree on the comparisons
    with zero; the arithmetic agrees where the doubles are exact, as
    on the whole numbers up to [exactSeconds], and the statements
    below that rest on the arithmetic are limited to that. *)
Record State := {
  timeLeft : Q;
  durationSeconds : Q;
  isActive : bool;
  completions : nat }.

(** [useState(durationSeconds)] *)
Definition useTimer (durationSeconds : Q) (isActive : bool) : State :=
  {| timeLeft := durationSeconds; durationSeconds := durationSeconds;
     isActive := isActive; completions := 0 |}.

(** The largest whole number [n] of seconds such that every whole
    number up to [n] is a double: 2^53. From there on [prev - 1]
    rounds in the source. *)
Definition exactSeconds : N := 9007199254740992.

(** The updater the interval passes to [setTimeLeft]: the new value,
    and whether it calls [onComplete]. *)
Definition countdown (prev : Q) : Q * bool :=
  if Qle_bool prev 0 then (0, false)
  else
    let newValue := prev - 1 in
    (newValue, Qeq_bool newValue 0).

Inductive Event :=
| Tick
| SetDuration (durationSeconds : Q)
| SetActive (isActive : bool).

(** The interval exists only while [isActive]; the effect on
    [durationSeconds] runs when the prop changes. *)
Definition step (e : Event) (s : State) : State :=
  match e with
  | Tick =>
      if isActive s then
        {| timeLeft := fst (countdown (timeLeft s));
           durationSeconds := durationSeconds s;
           isActive := isActive s;
           completions :=
             if snd (countdown (timeLeft s)) then S (completions s)
             else completions s |}
      else s
  | SetDuration d =>
      if Qeq_bool d (durationSeconds s) then s
      else {| timeLeft := d; durationSeconds := d;
              isActive := isActive s; completions := completions s |}
  | SetActive b =>
      {| timeLeft := timeLeft s; durationSeconds := durationSeconds s;
         isActive := b; completions := completions s |}
  end.

Definition run (es : list Event) (s : State) : State :=
  fold_left (fun s e => step e s) es s.

(** [k] ticks of the interval. *)
Definition ticks (k : nat) : list Event := repeat Tick k.

(** [s.padStart(2, '0')] *)
Definition padStart2 (s : jsstring) : jsstring :=
  match s with
  | [] => [48; 48]%N
  | [c] => [48%N; c]
  | _ => s
  end.

(** The time display, for a time left that is a natural number:
    [Math.floor(timeLeft / 60)] and [timeLeft % 60], each padded. *)
Definition clock (timeLeft : N) : jsstring :=
  padStart2 (numberToString (timeLeft / 60))
  ++ lit ":" ++ padStart2 (numberToString (timeLeft mod 60)).

(** The width of the progress bar, in percent:
    [Math.min(100, progress)] of [components/Timer.tsx]. *)
Definition progress (durationSeconds timeLeft : Q) : Q :=
  let totalDuration := Qmax durationSeconds 1 in
  let elapsed := totalDuration - timeLeft in
  Qmin 100 (elapsed / totalDuration * 100).

(** [isUrgent] of [components/Timer.tsx]:
    [timeLeft < 60 && isActive && timeLeft > 0]. *)
Definition isUrgent (s : State) : bool :=
  negb (Qle_bool 60 (timeLeft s)) && isActive s && negb (Qle_bool (timeLeft s) 0).

End Timer.

(** ** The application shell [App.tsx] *)

Module App.

(** A cue card of [utils/ieltsData], as the shell uses it. *)
Record CueCard := { id : jsstring; title : jsstring; bullets : list jsstring }.

Fixpoint sameString (a b : jsstring) : bool :=
  match a, b with
  | [], [] => true
  | c :: a', d :: b' => N.eqb c d && sameString a' b'
  | _, _ => false
  end.

(** [usedIds.includes(x)] *)
Definition includesId (usedIds : list jsstring) (x : jsstring) : bool :=
  existsb (sameString x) usedIds.

(** [CUE_CARDS.filter(card => !usedIds.includes(card.id))] *)
Definition pool (cards : list CueCard) (usedIds : list jsstring) : list CueCard :=
  filter (fun card => negb (includesId usedIds (id card))) cards.

(** The list the card is drawn from: the pool, or all cards when the
    pool is empty. *)
Definition drawnFrom (cards : list CueCard) (usedIds : list jsstring) : list CueCard :=
  match pool cards usedIds with
  | [] => cards
  | p => p
  end.

(** The card [handleStartTest] selects, for the table [cards], the
    used ids and the value [random] of [Math.random()]; [None] is
    [undefined]. *)
Definition selectCard
    (cards : list CueCard) (usedIds : list jsstring) (random : Q) : option CueCard :=
  let source := drawnFrom cards usedIds in
  nth_error source
    (Z.to_nat (Qfloor (random * inject_Z (Z.of_nat (List.length source))))).

(** [Array.prototype.findIndex]; [-1] when no element passes. *)
Fixpoint findIndex {A} (test : A -> bool) (l : list A) : Z :=
  match l with
  | [] => -1
  | x :: l' =>
      if test x then 0
      else
        let i := findIndex test l' in
        if (i <? 0)%Z then -1 else (i + 1)%Z
  end.

(** [CUE_CARDS.findIndex(c => c.id === selectedCard.id)] *)
Definition cueCardIndex (cards : list CueCard) (selected : CueCard) : Z :=
  findIndex (fun c => sameString (id c) (id selected)) cards.

Definition roleName (r : Role) : jsstring :=
  match r with
  | user => lit "user"
  | model => lit "model"
  end.

(** [Array.prototype.join] *)
Fixpoint join (separator : jsstring) (l : list jsstring) : jsstring :=
  match l with
  | [] => []
  | [s] => s
  | s :: l' => s ++ separator ++ join separator l'
  end.

(** One line of the transcript. *)
Definition line (m : ChatMessage) : jsstring :=
  roleName (role m) ++ lit ": " ++ text m.

(** The transcript [handleFinishTest] sends for evaluation. *)
Definition transcriptOf (messages : list ChatMessage) : jsstring :=
  join [10%N] (List.map line messages).

(** Two sample cards. *)
Definition sampleCards : list CueCard :=
  [ {| id := lit "c1"; title := lit "Describe a book"; bullets := [] |};
    {| id := lit "c2"; title := lit "Describe a journey"; bullets := [] |} ].

End App.

(** * Properties *)

Unset Implicit Arguments.

(** ** Running computations *)

Lemma bind_normal {A B} (m : Act A) (k : A -> Act B) h a h1 o1 :
  m h = (Normal a, h1, o1) ->
  bind m k h = (completionOf (k a h1), stateOf (k a h1), o1 ++ effectsOf (k a h1)).
Proof.
  intros E. unfold bind. rewrite E.
  destruct (k a h1) as [[r h2] o2]. reflexivity.
Qed.

Lemma bind_throw {A B} (m : Act A) (k : A -> Act B) h e h1 o1 :
  m h = (Throw e, h1, o1) -> bind m k h = (Throw e, h1, o1).
Proof. intros E. unfold bind. rewrite E. reflexivity. Qed.

Lemma forEach_emits {A} (f : A -> Effect) (g : A -> Act unit) :
  (forall x h, g x h = (Normal tt, h, [f x])) ->
  forall xs h, forEach xs g h = (Normal tt, h, List.map f xs).
Proof.
  intros Hg xs; induction xs as [|x xs IH]; intros h; [reflexivity|].
  cbn [forEach]. unfold bind. rewrite Hg, IH. reflexivity.
Qed.

(** ** The teardown *)

Lemma stopAudioProcessing_eq (h : Hook) :
  stopAudioProcessing h = (Normal tt, released h, releaseEffects h).
Proof.
  destruct h as [cs v sp er ms mu ff ut ic oc st pr mr ch act nx se ci co hp].
  unfold stopAudioProcessing, released, releaseEffects, whenSome, when.
  destruct mr as [[r [| |]]|], st as [[tr]|], pr as [p|], ic as [c1|], oc as [c2|];
    cbv [bind read update emit ret when negb isInactive state recorder tryCatch];
    cbn;
    rewrite ?(forEach_emits TrackStop) by reflexivity; cbn;
    rewrite ?(forEach_emits SourceStop) by reflexivity; cbn;
    rewrite ?app_nil_r; reflexivity.
Qed.

Lemma released_idempotent (h : Hook) : released (released h) = released h.
Proof. unfold released; cbn. destruct (mediaRecorderRef h); reflexivity. Qed.

Lemma releaseEffects_released (h : Hook) : releaseEffects (released h) = [].
Proof. unfold releaseEffects, released; cbn. destruct (mediaRecorderRef h); reflexivity. Qed.

Arguments stopAudioProcessing : simpl never.
Arguments trim : simpl never.
Arguments numberToString : simpl never.
Arguments lit : simpl never.

Ltac run_act :=
  cbv [bind read update emit ret when whenSome tryCatch call throw done];
  cbn.

(** The error the error callback surfaces. *)
Lemma onerror_eq (err : option JsError) (h : Hook) :
  onerror err h
  = (Normal tt,
     released
       (setError
          (Some (if includes (messageOf err) notFoundSignature
                    || includes (messageOf err) signature404
                 then BILLING_REQUIRED
                 else or_else (messageOf err) networkFailed))
          (setConnectionState ERROR h)),
     ConsoleError :: releaseEffects h).
Proof.
  unfold onerror.
  destruct (includes (messageOf err) notFoundSignature
            || includes (messageOf err) signature404);
    run_act; rewrite stopAudioProcessing_eq; reflexivity.
Qed.

Lemma onclose_eq (h : Hook) :
  onclose h
  = (Normal tt, released (setConnectionState DISCONNECTED h), releaseEffects h).
Proof.
  unfold onclose. run_act. rewrite stopAudioProcessing_eq. reflexivity.
Qed.

(** C10. The teardown leaves the finalized messages and the recorded
    error as they were, together with the connection state, the mute
    flag, the captured chunks, the session promise and the two
    utterance accumulators; what it resets is the recorder (stopped),
    the stream, the processor node, the two contexts, the active set,
    the cursor, the speaking flag, the volume, the fluency signal and
    the live user transcript. *)
Theorem stopAudioProcessing_frame (h : Hook) :
  let h' := stateOf (stopAudioProcessing h) in
  (messages h' = messages h /\ error h' = error h)
  /\ (connectionState h' = connectionState h /\ isMuted h' = isMuted h
      /\ audioChunksRef h' = audioChunksRef h
      /\ sessionPromiseRef h' = sessionPromiseRef h
      /\ currentInputRef h' = currentInputRef h
      /\ currentOutputRef h' = currentOutputRef h)
  /\ (mediaRecorderRef h' = stopped (mediaRecorderRef h)
      /\ mediaStreamRef h' = None /\ scriptProcessorRef h' = None
      /\ inputAudioContextRef h' = None /\ outputAudioContextRef h' = None
      /\ activeSourcesRef h' = [] /\ nextStartTimeRef h' = 0
      /\ isModelSpeaking h' = false /\ volume h' = 0
      /\ fluencyFeedback h' = neutral /\ userTranscript h' = []).
Proof.
  cbv zeta. rewrite stopAudioProcessing_eq. cbn. repeat split.
Qed.

(** C3, as the code has it. A second teardown right after a first
    issues no call at all and changes nothing; after it the active set
    is empty, the cursor and the volume are zero, and the connection
    state is the one the hook had before the two calls, for the
    teardown never writes it. So close followed by error ends in
    [ERROR], error followed by close in [DISCONNECTED], and in both
    orders the second callback releases nothing. *)
Theorem stopAudioProcessing_twice (h : Hook) (err : option JsError) :
  let first := stopAudioProcessing h in
  let second := stopAudioProcessing (stateOf first) in
  (effectsOf second = [] /\ stateOf second = stateOf first)
  /\ (activeSourcesRef (stateOf second) = []
      /\ nextStartTimeRef (stateOf second) = 0
      /\ volume (stateOf second) = 0
      /\ connectionState (stateOf second) = connectionState h)
  /\ (filter isRelease (effectsOf (onerror err (stateOf (onclose h)))) = []
      /\ connectionState (stateOf (onerror err (stateOf (onclose h)))) = ERROR)
  /\ (filter isRelease (effectsOf (onclose (stateOf (onerror err h)))) = []
      /\ connectionState (stateOf (onclose (stateOf (onerror err h))))
         = DISCONNECTED).
Proof.
  cbv zeta.
  repeat (rewrite ?stopAudioProcessing_eq, ?onclose_eq, ?onerror_eq;
          cbn [stateOf effectsOf fst snd]).
  rewrite released_idempotent, !releaseEffects_released.
  repeat split.
Qed.

(** C3, as stated, fails: close followed by error runs the teardown
    twice and leaves the hook in [ERROR]. *)
Lemma teardown_twice_not_disconnected :
  connectionState (run [Close; Error None] connected) <> DISCONNECTED.
Proof. vm_compute. discriminate. Qed.

(** ** The error callback *)

(** C5. Whatever the remote error, the connection state becomes
    [ERROR]; the surfaced error is the billing sentinel when the text
    contains one of the two not-found signatures, else the text itself
    when there is one, else the generic network-failure string; that
    last case is the one of an absent error, an absent message and an
    empty message. *)
Theorem onerror_surfaces (err : option JsError) (h : Hook) :
  let msg := messageOf err in
  let h' := stateOf (onerror err h) in
  connectionState h' = ERROR
  /\ error h'
     = Some (if includes msg notFoundSignature || includes msg signature404
             then BILLING_REQUIRED
             else match msg with
                  | [] => networkFailed
                  | _ :: _ => msg
                  end)
  /\ (error (stateOf (onerror None h)) = Some networkFailed
      /\ error (stateOf (onerror (Some {| message := None |}) h))
         = Some networkFailed
      /\ error (stateOf (onerror (Some {| message := Some [] |}) h))
         = Some networkFailed).
Proof.
  cbv zeta. rewrite !onerror_eq. cbn [stateOf fst snd].
  split; [reflexivity|]. split; [|repeat split].
  unfold released; cbn [error setError].
  destruct (messageOf err); reflexivity.
Qed.

(** ** [disconnect] *)

Lemma disconnect_eq (env : DisconnectEnv) (h : Hook) :
  disconnect env h
  = (Normal (if 0 <? List.length (audioChunksRef h)
             then Some (newBlob (audioChunksRef h) webm) else None),
     setConnectionState DISCONNECTED
       (released (write_sessionPromiseRef None h)),
     match sessionPromiseRef h, awaitSession env with
     | Some s, Normal _ => [SessionClose (session s)]
     | _, _ => []
     end ++ releaseEffects h).
Proof.
  unfold disconnect.
  destruct (sessionPromiseRef h) as [s|] eqn:Es;
    [destruct (awaitSession env) as [[]|e1]; [destruct (sessionClose env) as [[]|e2]|]|];
    run_act; rewrite ?Es; cbn; rewrite ?stopAudioProcessing_eq; cbn;
    rewrite ?app_nil_r; try reflexivity.
  unfold released, setConnectionState; cbn. rewrite Es. reflexivity.
Qed.


(** ** Devices held and released *)

Lemma Device_eqb_refl (d : Device) : Device_eqb d d = true.
Proof.
  destruct d as [k x]. unfold Device_eqb; cbn.
  rewrite Nat.eqb_refl. destruct k; reflexivity.
Qed.

(** Release calls that cover every device held leave none. *)
Lemma releases_leave_none (rs : list Effect) :
  (forall e, In e rs -> isRelease e = true) ->
  forall held,
    (forall d, In d held -> exists e, In e rs /\ releases e = Some d) ->
    fold_left perform rs held = [].
Proof.
  induction rs as [|e rs IH]; intros Hrel held Hcov.
  - destruct held as [|d held]; [reflexivity|].
    destruct (Hcov d (or_introl eq_refl)) as [e [[] _]].
  - cbn [fold_left]. apply IH.
    + intros e' He'. apply Hrel. right. exact He'.
    + intros d Hd. unfold perform in Hd.
      specialize (Hrel e (or_introl eq_refl)). unfold isRelease in Hrel.
      destruct (releases e) as [d0|] eqn:Er; [|discriminate].
      apply filter_In in Hd. destruct Hd as [Hd Hne].
      destruct (Hcov d Hd) as [e' [[<-|He'] Hr]].
      * rewrite Er in Hr. injection Hr as ->.
        rewrite Device_eqb_refl in Hne. discriminate.
      * exists e'. split; assumption.
Qed.

Lemma releaseEffects_release (h : Hook) (e : Effect) :
  In e (releaseEffects h) -> isRelease e = true.
Proof.
  unfold releaseEffects. rewrite !in_app_iff.
  intros [H|[H|[H|[H|[H|H]]]]].
  - destruct (mediaRecorderRef h) as [r|]; [|destruct H].
    destruct (isInactive (state r)); [destruct H|].
    destruct H as [<-|[]]. reflexivity.
  - destruct (mediaStreamRef h) as [s|]; [|destruct H].
    apply in_map_iff in H. destruct H as [t [<- _]]. reflexivity.
  - destruct (scriptProcessorRef h); [|destruct H].
    destruct H as [<-|[]]. reflexivity.
  - destruct (inputAudioContextRef h); [|destruct H].
    destruct H as [<-|[]]. reflexivity.
  - destruct (outputAudioContextRef h); [|destruct H].
    destruct H as [<-|[]]. reflexivity.
  - apply in_map_iff in H. destruct H as [t [<- _]]. reflexivity.
Qed.

(** The teardown releases every device the refs reach. *)
Lemma teardown_releases (h : Hook) (held : list Device) :
  reaches h held -> fold_left perform (releaseEffects h) held = [].
Proof.
  intros Hreach. apply releases_leave_none.
  - apply releaseEffects_release.
  - intros [k x] Hd. specialize (Hreach _ Hd). cbn in Hreach.
    unfold releaseEffects.
    destruct k.
    + destruct Hreach as [E|E].
      * exists (ContextClose x). split; [|reflexivity].
        rewrite E, !in_app_iff. do 3 right. left. left. reflexivity.
      * exists (ContextClose x). split; [|reflexivity].
        rewrite E, !in_app_iff. do 4 right. left. left. reflexivity.
    + destruct Hreach as [s [E Hin]].
      exists (TrackStop x). split; [|reflexivity].
      rewrite E, !in_app_iff. right. left. apply in_map. exact Hin.
    + exists (RecorderStop x). split; [|reflexivity].
      rewrite Hreach, !in_app_iff. left. left. reflexivity.
    + destruct Hreach as [muted E].
      exists (ProcessorDisconnect x). split; [|reflexivity].
      rewrite E, !in_app_iff. do 2 right. left. left. reflexivity.
    + exists (SourceStop x). split; [|reflexivity].
      rewrite !in_app_iff. do 5 right. apply in_map. exact Hreach.
    + destruct Hreach.
Qed.

(** ** [connect] *)

Lemma connect_caught (env : ConnectEnv) (h : Hook) e h1 o1 :
  connectBody env h = (Throw e, h1, o1) ->
  connect env h
  = (Normal tt,
     released (setConnectionState ERROR
                 (setError (Some (or_else (messageOf (Some e)) initFailed)) h1)),
     o1 ++ releaseEffects h1).
Proof.
  intros E. unfold connect, tryCatch. rewrite E.
  unfold connectCatch. run_act. rewrite stopAudioProcessing_eq. reflexivity.
Qed.

Ltac reach_case :=
  let d := fresh "d" in
  let Hd := fresh "Hd" in
  intros d Hd; cbn in Hd;
  repeat rewrite in_app_iff in Hd;
  repeat match type of Hd with
         | _ \/ _ => destruct Hd as [Hd|Hd]
         end;
  try (apply in_map_iff in Hd; destruct Hd as [? [<- Hd]]);
  try (cbn in Hd;
       repeat match type of Hd with
              | _ \/ _ => destruct Hd as [Hd|Hd]
              end);
  try (destruct Hd; fail);
  try subst d;
  cbn; eauto.

Ltac fails_here F :=
  injection F as ->; do 2 eexists;
  split; [reflexivity|split; [reach_case|reflexivity]].

Lemma connectBody_throws (env : ConnectEnv) (h : Hook) (e : JsError) :
  firstThrow env = Some e ->
  exists h1 o1,
    connectBody env h = (Throw e, h1, o1) /\ reaches h1 (heldAfter o1)
    /\ messages h1 = [].
Proof.
  destruct env as [si cm a1 a2 a3 a4 a5 a6 a7 a8 a9 a10 a11 a12 a13].
  destruct h as [cs v sp er ms mu ff ut ic oc st pr mr ch act nx se ci co hp].
  unfold firstThrow, connectBody; cbn [thrown firstOf newInputContext newOutputContext
    resumeInput resumeOutput getUserMedia newMediaRecorder recorderStart
    createMediaStreamSource createScriptProcessor connectSource connectProcessor
    newGoogleGenAI liveConnect systemInstruction closedIsMuted].
  intros F.
  destruct a1 as [[]|e1]; cbn in F; [|fails_here F].
  destruct a2 as [[]|e1]; cbn in F; [|fails_here F].
  destruct a3 as [[]|e1]; cbn in F; [|fails_here F].
  destruct a4 as [[]|e1]; cbn in F; [|fails_here F].
  destruct a5 as [n|e1]; cbn in F; [|fails_here F].
  destruct a6 as [[]|e1]; cbn in F; [|fails_here F].
  destruct a7 as [[]|e1]; cbn in F; [|fails_here F].
  destruct a8 as [[]|e1]; cbn in F; [|fails_here F].
  destruct a9 as [[]|e1]; cbn in F; [|fails_here F].
  destruct a10 as [[]|e1]; cbn in F; [|fails_here F].
  destruct a11 as [[]|e1]; cbn in F; [|fails_here F].
  destruct a12 as [[]|e1]; cbn in F; [|fails_here F].
  destruct a13 as [[]|e1]; cbn in F; [discriminate|fails_here F].
Qed.

(** C7. When a call of the setup throws (or an awaited promise
    rejects), [connect] still returns normally; the connection state is
    [ERROR]; the recorded error is the message of the thrown value, or
    the initialisation-failure string when that message is absent or
    empty, so never empty; no stream, processor node or context is
    left in the refs, the recorder is stopped and the active set is
    empty; and of the devices the call acquired none is still held. *)
Theorem connect_failure (env : ConnectEnv) (h : Hook) (e : JsError) :
  firstThrow env = Some e ->
  let r := connect env h in
  completionOf r = Normal tt
  /\ connectionState (stateOf r) = ERROR
  /\ (error (stateOf r)
      = Some match message e with
             | Some (c :: s) => c :: s
             | _ => initFailed
             end
      /\ error (stateOf r) <> Some [])
  /\ (mediaStreamRef (stateOf r) = None
      /\ scriptProcessorRef (stateOf r) = None
      /\ inputAudioContextRef (stateOf r) = None
      /\ outputAudioContextRef (stateOf r) = None
      /\ (forall rec, mediaRecorderRef (stateOf r) = Some rec -> state rec = inactive)
      /\ activeSourcesRef (stateOf r) = [])
  /\ heldAfter (effectsOf r) = [].
Proof.
  intros F. cbv zeta.
  destruct (connectBody_throws env h e F) as [h1 [o1 [E [Hreach _]]]].
  rewrite (connect_caught env h e h1 o1 E). cbn [completionOf stateOf effectsOf fst snd].
  split; [reflexivity|]. split; [reflexivity|]. split; [|split].
  - unfold released; cbn [error setError setConnectionState messageOf].
    destruct (message e) as [[|c s]|]; (split; [reflexivity|discriminate]).
  - unfold released; cbn. repeat split.
    intros rec Hrec. destruct (mediaRecorderRef h1); [|discriminate].
    cbn in Hrec. injection Hrec as <-. reflexivity.
  - unfold heldAfter. rewrite fold_left_app.
    apply teardown_releases. exact Hreach.
Qed.

Lemma connect_failure_witness :
  firstThrow micDenied = Some permissionDenied
  /\ connectionState (stateOf (connect micDenied connected)) = ERROR
  /\ heldAfter (effectsOf (connect micDenied connected)) = [].
Proof.
  split; [reflexivity|].
  pose proof (connect_failure micDenied connected permissionDenied eq_refl) as H.
  cbv zeta in H. split; [apply H|apply H].
Defined.

Lemma connectBody_succeeds (env : ConnectEnv) (h : Hook) :
  firstThrow env = None ->
  exists h1 o1,
    connectBody env h = (Normal tt, h1, o1)
    /\ messages h1 = [] /\ connectionState h1 = CONNECTING /\ error h1 = None
    /\ (exists s,
          sessionPromiseRef h1 = Some s
          /\ forall d, In d (heldAfter o1) -> d = (Session, session s) \/ reaches h1 [d])
    /\ inputAudioContextRef h1 = Some {| ctx := heap h |}
    /\ outputAudioContextRef h1 = Some {| ctx := S (heap h) |}
    /\ (S (heap h) < heap h1)%nat
    /\ audioChunksRef h1 = []
    /\ Forall (fun e => releases e = None) o1
    /\ In (Context, heap h) (heldAfter o1)
    /\ In (Context, S (heap h)) (heldAfter o1)
    /\ (exists p, scriptProcessorRef h1 = Some p /\ capturedIsMuted p = closedIsMuted env).
Proof.
  destruct env as [si cm a1 a2 a3 a4 a5 a6 a7 a8 a9 a10 a11 a12 a13].
  destruct h as [cs v sp er ms mu ff ut ic oc st pr mr ch act nx se ci co hp].
  unfold firstThrow, connectBody; cbn [thrown firstOf newInputContext newOutputContext
    resumeInput resumeOutput getUserMedia newMediaRecorder recorderStart
    createMediaStreamSource createScriptProcessor connectSource connectProcessor
    newGoogleGenAI liveConnect systemInstruction closedIsMuted].
  intros F.
  destruct a1 as [[]|e1]; cbn in F; [|discriminate].
  destruct a2 as [[]|e1]; cbn in F; [|discriminate].
  destruct a3 as [[]|e1]; cbn in F; [|discriminate].
  destruct a4 as [[]|e1]; cbn in F; [|discriminate].
  destruct a5 as [n|e1]; cbn in F; [|discriminate].
  destruct a6 as [[]|e1]; cbn in F; [|discriminate].
  destruct a7 as [[]|e1]; cbn in F; [|discriminate].
  destruct a8 as [[]|e1]; cbn in F; [|discriminate].
  destruct a9 as [[]|e1]; cbn in F; [|discriminate].
  destruct a10 as [[]|e1]; cbn in F; [|discriminate].
  destruct a11 as [[]|e1]; cbn in F; [|discriminate].
  destruct a12 as [[]|e1]; cbn in F; [|discriminate].
  destruct a13 as [[]|e1]; cbn in F; [|discriminate].
  do 2 eexists. split; [reflexivity|].
  split; [reflexivity|]. split; [reflexivity|]. split; [reflexivity|].
  split; [|split; [reflexivity|split; [reflexivity|split;
            [cbn; lia|split; [reflexivity|split; [repeat constructor|]]]]]].
  2:{ cbn. split; [|split]; [| |eexists; split; reflexivity];
      do 3 right; apply in_or_app; right; cbn; auto. }
  eexists. split; [reflexivity|].
  intros d Hd. cbn in Hd.
  destruct Hd as [Hd|Hd]; [left; symmetry; exact Hd|right].
  intros d' [<-|[]]. revert d Hd. reach_case.
Qed.

Lemma connect_resets_messages (env : ConnectEnv) (h : Hook) :
  messages (stateOf (connect env h)) = [].
Proof.
  destruct (firstThrow env) as [e|] eqn:F.
  - destruct (connectBody_throws env h e F) as [h1 [o1 [E [_ Hm]]]].
    rewrite (connect_caught env h e h1 o1 E). exact Hm.
  - destruct (connectBody_succeeds env h F) as [h1 [o1 [E [Hm _]]]].
    unfold connect, tryCatch. rewrite E. exact Hm.
Qed.

(** ** The message handler *)

Lemma playAudio_eq (env : MessageEnv) (m : GenAI.LiveServerMessage) (h : Hook) :
  playAudio env m h
  = if plays m h then
      match decodeAudioData env with
      | Normal buffer =>
          (Normal tt,
           write_nextStartTimeRef
             (Qmax (nextStartTimeRef h) (currentTime env) + duration buffer)
             (write_activeSourcesRef (Set_add (heap h) (activeSourcesRef h))
                (write_heap (S (heap h))
                   (write_nextStartTimeRef
                      (Qmax (nextStartTimeRef h) (currentTime env))
                      (setIsModelSpeaking true h)))),
           [SourceStart (heap h) (Qmax (nextStartTimeRef h) (currentTime env)) buffer])
      | Throw _ =>
          (Normal tt,
           write_nextStartTimeRef (Qmax (nextStartTimeRef h) (currentTime env))
             (setIsModelSpeaking true h),
           [])
      end
    else (Normal tt, h, []).
Proof.
  unfold playAudio, plays.
  destruct (audioDataOf m) as [[|c d]|], (outputAudioContextRef h) as [o|] eqn:Eo;
    run_act; rewrite ?Eo; try reflexivity.
  destruct (decodeAudioData env); reflexivity.
Qed.

Lemma appendInputTranscription_eq (m : GenAI.LiveServerMessage) (h : Hook) :
  appendInputTranscription m h
  = (Normal tt,
     if truthyText (transcriptionText GenAI.inputTranscription m)
     then setUserTranscript (currentInputRef h ++ fragment GenAI.inputTranscription m)
            (write_currentInputRef
               (currentInputRef h ++ fragment GenAI.inputTranscription m) h)
     else h,
     []).
Proof.
  unfold appendInputTranscription, fragment, truthyText.
  destruct (transcriptionText GenAI.inputTranscription m) as [[|c t]|]; reflexivity.
Qed.

Lemma appendOutputTranscription_eq (m : GenAI.LiveServerMessage) (h : Hook) :
  appendOutputTranscription m h
  = (Normal tt,
     if truthyText (transcriptionText GenAI.outputTranscription m)
     then write_currentOutputRef
            (currentOutputRef h ++ fragment GenAI.outputTranscription m) h
     else h,
     []).
Proof.
  unfold appendOutputTranscription, fragment, truthyText.
  destruct (transcriptionText GenAI.outputTranscription m) as [[|c t]|]; reflexivity.
Qed.

Lemma finishTurn_eq (env : MessageEnv) (m : GenAI.LiveServerMessage) (h : Hook) :
  finishTurn env m h
  = (Normal tt,
     if turnCompleteOf m then
       let h1 :=
         if truthy (trim (currentInputRef h)) then write_currentInputRef [] h else h in
       let h2 :=
         if truthy (trim (currentOutputRef h)) then write_currentOutputRef [] h1 else h1 in
       let h3 :=
         if truthy (trim (currentInputRef h))
         then setMessages
                (messages h ++ [{| id := numberToString (dateNowUser env) ++ lit "-u";
                                   role := user;
                                   text := if userUpdaterAtCall env
                                           then currentInputRef h else [] |}]) h2
         else h2 in
       if truthy (trim (currentOutputRef h))
       then setMessages
              (messages h3 ++ [{| id := numberToString (dateNowModel env) ++ lit "-m";
                                  role := model;
                                  text := if modelUpdaterAtCall env
                                          then currentOutputRef h else [] |}]) h3
       else h3
     else h,
     []).
Proof.
  unfold finishTurn, setMessagesAppend, render.
  destruct (turnCompleteOf m); [|reflexivity].
  cbv [bind read update ret when].
  destruct (truthy (trim (currentInputRef h)));
    cbn [currentOutputRef write_currentInputRef];
    destruct (truthy (trim (currentOutputRef h)));
    destruct (userUpdaterAtCall env); destruct (modelUpdaterAtCall env);
    reflexivity.
Qed.

Lemma onmessage_eq (env : MessageEnv) (m : GenAI.LiveServerMessage) (h : Hook) :
  onmessage env m h
  = (Normal tt, transcribe env m (stateOf (playAudio env m h)),
     effectsOf (playAudio env m h)).
Proof.
  unfold onmessage, transcribe, bind.
  rewrite playAudio_eq.
  destruct (plays m h); [destruct (decodeAudioData env)|];
    cbn [stateOf effectsOf fst snd];
    rewrite appendInputTranscription_eq; cbn [stateOf effectsOf fst snd];
    rewrite appendOutputTranscription_eq; cbn [stateOf effectsOf fst snd];
    rewrite finishTurn_eq; cbn [stateOf effectsOf fst snd app];
    rewrite ?app_nil_r; reflexivity.
Qed.

Ltac transcribe_cases env m h :=
  unfold transcribe;
  rewrite finishTurn_eq, appendOutputTranscription_eq, appendInputTranscription_eq;
  cbn [stateOf fst snd];
  destruct (truthyText (transcriptionText GenAI.inputTranscription m));
  destruct (truthyText (transcriptionText GenAI.outputTranscription m));
  destruct (turnCompleteOf m); cbn;
  repeat match goal with
         | |- context [truthy (trim ?s)] => destruct (truthy (trim s)); cbn
         end.

(** They leave the playback state alone. *)
Lemma transcribe_playback (env : MessageEnv) (m : GenAI.LiveServerMessage) (h : Hook) :
  nextStartTimeRef (transcribe env m h) = nextStartTimeRef h
  /\ activeSourcesRef (transcribe env m h) = activeSourcesRef h
  /\ isModelSpeaking (transcribe env m h) = isModelSpeaking h
  /\ outputAudioContextRef (transcribe env m h) = outputAudioContextRef h
  /\ heap (transcribe env m h) = heap h.
Proof. transcribe_cases env m h; repeat split. Qed.

Lemma duration_nonneg (b : AudioBuffer) : 0 <= duration b.
Proof. unfold duration, Qle; cbn. lia. Qed.

Lemma scheduled_app (es es' : list Effect) :
  scheduled (es ++ es') = scheduled es ++ scheduled es'.
Proof.
  induction es as [|e es IH]; [reflexivity|].
  destruct e; cbn; rewrite ?IH; reflexivity.
Qed.

(** What one message schedules, and where it leaves the cursor. *)
Lemma onmessage_schedules (env : MessageEnv) (m : GenAI.LiveServerMessage) (h : Hook) :
  let start := Qmax (nextStartTimeRef h) (currentTime env) in
  (scheduled (effectsOf (onmessage env m h)) = []
   /\ nextStartTimeRef h <= nextStartTimeRef (stateOf (onmessage env m h)))
  \/ (exists buffer,
        scheduled (effectsOf (onmessage env m h)) = [(start, buffer)]
        /\ nextStartTimeRef (stateOf (onmessage env m h)) = start + duration buffer).
Proof.
  cbv zeta. rewrite onmessage_eq. cbn [stateOf effectsOf fst snd].
  destruct (transcribe_playback env m (stateOf (playAudio env m h))) as [-> _].
  rewrite playAudio_eq.
  destruct (plays m h); [destruct (decodeAudioData env) as [buffer|e]|];
    cbn [stateOf effectsOf fst snd scheduled nextStartTimeRef write_nextStartTimeRef].
  - right. exists buffer. split; reflexivity.
  - left. split; [reflexivity|]. apply Q.le_max_l.
  - left. split; [reflexivity|]. apply Qle_refl.
Qed.

Lemma onmessages_cons env m ms (h : Hook) :
  onmessages ((env, m) :: ms) h
  = (completionOf (onmessages ms (stateOf (onmessage env m h))),
     stateOf (onmessages ms (stateOf (onmessage env m h))),
     effectsOf (onmessage env m h)
     ++ effectsOf (onmessages ms (stateOf (onmessage env m h)))).
Proof.
  cbn [onmessages].
  rewrite (bind_normal (onmessage env m) (fun _ => onmessages ms) h tt _ _
             (onmessage_eq env m h)).
  rewrite onmessage_eq. reflexivity.
Qed.

Lemma cursor_le_start (start : Q) (buffer : AudioBuffer) : start <= start + duration buffer.
Proof. pose proof (duration_nonneg buffer). lra. Qed.

Lemma onmessages_sorted (ms : list (MessageEnv * GenAI.LiveServerMessage)) :
  forall h,
    StronglySorted Qle (List.map fst (scheduled (effectsOf (onmessages ms h))))
    /\ Forall (Qle (nextStartTimeRef h))
         (List.map fst (scheduled (effectsOf (onmessages ms h)))).
Proof.
  induction ms as [|[env m] ms IH]; intros h.
  - cbn. split; constructor.
  - rewrite onmessages_cons. cbn [effectsOf snd].
    rewrite scheduled_app, map_app.
    destruct (IH (stateOf (onmessage env m h))) as [Hs Hf].
    destruct (onmessage_schedules env m h) as [[-> Hle]|[buffer [-> Hc]]].
    + cbn [List.map app]. split; [exact Hs|].
      eapply Forall_impl; [|exact Hf].
      intros t Ht. eapply Qle_trans; [exact Hle|exact Ht].
    + rewrite Hc in Hf. cbn [List.map app fst].
      assert (Hall : Forall (Qle (Qmax (nextStartTimeRef h) (currentTime env)))
                       (List.map fst (scheduled (effectsOf
                          (onmessages ms (stateOf (onmessage env m h))))))).
      { eapply Forall_impl; [|exact Hf].
        intros t Ht. eapply Qle_trans; [apply cursor_le_start|exact Ht]. }
      split.
      * constructor; assumption.
      * constructor; [apply Q.le_max_l|].
        eapply Forall_impl; [|exact Hall].
        intros t Ht. eapply Qle_trans; [apply Q.le_max_l|exact Ht].
Qed.

(** C1, as the code has it. One run of the message handler creates at
    most one buffer source; its start time is the larger of the cursor
    before and the reading of the output clock that the handler takes
    when the payload arrives, before it decodes, so at least both, and
    the cursor afterwards is that start time plus the duration of the
    buffer. Over any sequence of messages the start times are in
    non-decreasing order, and none is before the cursor the sequence
    started with. *)
Theorem playback_schedule
    (ms : list (MessageEnv * GenAI.LiveServerMessage))
    (env : MessageEnv) (m : GenAI.LiveServerMessage) (h : Hook) :
  ((List.length (scheduled (effectsOf (onmessage env m h))) <= 1)%nat
   /\ Forall (fun s =>
        nextStartTimeRef h <= fst s /\ currentTime env <= fst s
        /\ fst s = Qmax (nextStartTimeRef h) (currentTime env)
        /\ nextStartTimeRef (stateOf (onmessage env m h)) = fst s + duration (snd s))
      (scheduled (effectsOf (onmessage env m h))))
  /\ StronglySorted Qle (List.map fst (scheduled (effectsOf (onmessages ms h))))
  /\ Forall (Qle (nextStartTimeRef h))
       (List.map fst (scheduled (effectsOf (onmessages ms h)))).
Proof.
  split; [|apply onmessages_sorted].
  destruct (onmessage_schedules env m h) as [[-> _]|[buffer [-> Hc]]].
  - split; [cbn; lia|constructor].
  - split; [cbn; lia|]. constructor; [|constructor].
    cbn [fst snd]. repeat split.
    + apply Q.le_max_l.
    + apply Q.le_max_r.
    + exact Hc.
Qed.

(** C1, as stated, fails: the clock is read before the payload is
    decoded and not again. With the cursor at 0 and the clock at 5
    when the payload arrives, the buffer is given the start time 5;
    the clock is at 7 when [source.start] is called, so the start
    time is before the clock at the moment of scheduling. *)
Lemma start_before_clock_at_scheduling :
  let env := decodedLate 5 7 oneSecond in
  nextStartTimeRef connected = 0
  /\ currentTime env <= currentTimeAtStart env
  /\ scheduled (effectsOf (onmessage env (audioMessage (lit "AAAA")) connected))
     = [(5, oneSecond)]
  /\ ~ currentTimeAtStart env <= 5.
Proof.
  vm_compute. repeat split; [discriminate|].
  intros H. apply H. reflexivity.
Qed.

(** C2 fails on the code: an audio payload that cannot be decoded
    raises the speaking flag and starts nothing, so the flag is up
    over an empty active set, and it is still up after the next
    message. *)
Theorem undecodable_audio_leaves_speaking :
  let h := stateOf (onmessage (undecodable 0) (audioMessage (lit "!")) connected) in
  (activeSourcesRef connected = [] /\ isModelSpeaking connected = false)
  /\ (activeSourcesRef h = [] /\ isModelSpeaking h = true)
  /\ (activeSourcesRef (run [Message (decoded 0 oneSecond) turnCompleteMessage] h) = []
      /\ isModelSpeaking (run [Message (decoded 0 oneSecond) turnCompleteMessage] h) = true).
Proof. vm_compute. repeat split. Qed.

(** ** The chat history *)

Lemma playAudio_text (env : MessageEnv) (m : GenAI.LiveServerMessage) (h : Hook) :
  messages (stateOf (playAudio env m h)) = messages h
  /\ currentInputRef (stateOf (playAudio env m h)) = currentInputRef h
  /\ currentOutputRef (stateOf (playAudio env m h)) = currentOutputRef h.
Proof.
  rewrite playAudio_eq.
  destruct (plays m h); [destruct (decodeAudioData env)|]; repeat split.
Qed.

Lemma onmessage_history (env : MessageEnv) (m : GenAI.LiveServerMessage) (h : Hook) :
  let input := currentInputRef h ++ fragment GenAI.inputTranscription m in
  let output := currentOutputRef h ++ fragment GenAI.outputTranscription m in
  let h' := stateOf (onmessage env m h) in
  (exists appended,
     messages h' = messages h ++ appended
     /\ List.map role appended
        = (if finalizes m input then [user] else [])
          ++ (if finalizes m output then [model] else [])
     /\ List.map text appended
        = (if finalizes m input
           then [if userUpdaterAtCall env then input else []] else [])
          ++ (if finalizes m output
              then [if modelUpdaterAtCall env then output else []] else []))
  /\ currentInputRef h' = (if finalizes m input then [] else input)
  /\ currentOutputRef h' = (if finalizes m output then [] else output).
Proof.
  cbv zeta. rewrite onmessage_eq. cbn [stateOf fst snd].
  destruct (playAudio_text env m h) as [Hm [Hi Ho]].
  rewrite <- Hm, <- Hi, <- Ho.
  generalize (stateOf (playAudio env m h)). clear. intros h.
  unfold transcribe, finalizes.
  rewrite finishTurn_eq, appendOutputTranscription_eq, appendInputTranscription_eq.
  cbn [stateOf fst snd]. unfold truthyText, fragment.
  destruct (transcriptionText GenAI.inputTranscription m) as [[|c t]|];
    destruct (transcriptionText GenAI.outputTranscription m) as [[|c' t']|];
    rewrite ?app_nil_r; cbn [truthy];
    destruct (turnCompleteOf m); cbn;
    repeat match goal with
           | |- context [truthy (trim (currentInputRef h ++ ?x))] =>
               destruct (truthy (trim (currentInputRef h ++ x))); cbn
           | |- context [truthy (trim (currentInputRef h))] =>
               destruct (truthy (trim (currentInputRef h))); cbn
           | |- context [truthy (trim ?s)] => destruct (truthy (trim s)); cbn
           end;
    (split; [|split; reflexivity]);
    first [ exists []; rewrite app_nil_r; repeat split; reflexivity
          | rewrite <- ?app_assoc; eexists; repeat split; reflexivity ].
Qed.

(** What each event does to the chat history. *)
Lemma step_messages (e : Event) (h : Hook) :
  match e with
  | Connect _ => messages (step e h) = []
  | Message env m =>
      exists appended,
        messages (step e h) = messages h ++ appended
        /\ List.map role appended
           = (if finalizes m (currentInputRef h ++ fragment GenAI.inputTranscription m)
              then [user] else [])
             ++ (if finalizes m (currentOutputRef h ++ fragment GenAI.outputTranscription m)
                 then [model] else [])
  | _ => messages (step e h) = messages h
  end.
Proof.
  destruct e as [env|env| |env m| |err|source|data|p rms settled|b]; unfold step, handler.
  - apply connect_resets_messages.
  - unfold done. rewrite disconnect_eq. reflexivity.
  - unfold done, onopen. run_act. destruct (sessionPromiseRef h); reflexivity.
  - destruct (onmessage_history env m h) as [[appended [Hm [Hr _]]] _].
    exists appended. split; [exact Hm|exact Hr].
  - rewrite onclose_eq. reflexivity.
  - rewrite onerror_eq. reflexivity.
  - unfold onended. run_act.
    destruct (Nat.eqb _ 0); reflexivity.
  - unfold ondataavailable. destruct (0 <? size data); reflexivity.
  - unfold onaudioprocess. run_act.
    destruct (sessionPromiseRef h); [destruct (capturedIsMuted p); [|destruct settled]|]; reflexivity.
  - reflexivity.
Qed.

(** C4, as the code has it. On a turn-complete signal one user message
    is appended and the user accumulator is cleared exactly when the
    utterance accumulated so far, the fragment of this very message
    included, has a character that is not white space; otherwise
    nothing is appended for the user and the accumulator keeps its
    content; the same holds for the model utterance, whose message
    comes second. The text of an appended message is what its updater
    reads from the accumulator when React runs it: the utterance when
    that is at the call, the empty string when that is at the render,
    since the accumulator has been cleared by then. Without the signal
    the message handler appends nothing, and no other event ever
    appends: [connect] empties the history and the remaining events
    leave it as it is. *)
Theorem turn_complete_appends
    (env : MessageEnv) (m : GenAI.LiveServerMessage) (e : Event) (h : Hook) :
  let input := currentInputRef h ++ fragment GenAI.inputTranscription m in
  let output := currentOutputRef h ++ fragment GenAI.outputTranscription m in
  let h' := stateOf (onmessage env m h) in
  (exists appended,
     messages h' = messages h ++ appended
     /\ List.map role appended
        = (if turnCompleteOf m && truthy (trim input) then [user] else [])
          ++ (if turnCompleteOf m && truthy (trim output) then [model] else [])
     /\ List.map text appended
        = (if turnCompleteOf m && truthy (trim input)
           then [if userUpdaterAtCall env then input else []] else [])
          ++ (if turnCompleteOf m && truthy (trim output)
              then [if modelUpdaterAtCall env then output else []] else []))
  /\ currentInputRef h'
     = (if turnCompleteOf m && truthy (trim input) then [] else input)
  /\ currentOutputRef h'
     = (if turnCompleteOf m && truthy (trim output) then [] else output)
  /\ match e with
     | Connect _ => messages (step e h) = []
     | Message _ m' =>
         if turnCompleteOf m' then True else messages (step e h) = messages h
     | _ => messages (step e h) = messages h
     end.
Proof.
  cbv zeta. split; [|split; [|split]]; try apply (onmessage_history env m h).
  pose proof (step_messages e h) as H.
  destruct e as [env'|env'| |env' m'| |err|source|data|p rms settled|b]; try exact H.
  destruct H as [appended [Hm Hr]]. unfold finalizes in Hr.
  destruct (turnCompleteOf m'); [exact I|].
  cbn in Hr. destruct appended; [|discriminate].
  rewrite Hm. apply app_nil_r.
Qed.

(** C4, as stated, fails: an utterance of one space is not empty, yet
    the turn-complete signal appends no message and leaves the
    accumulator as it is. *)
Lemma blank_utterance_not_finalized :
  let heard := run [Message (decoded 0 oneSecond) (inputFragment (lit " "))] connected in
  let h' := stateOf (onmessage (decoded 0 oneSecond) turnCompleteMessage heard) in
  currentInputRef heard = lit " "
  /\ currentInputRef heard <> []
  /\ messages h' = messages heard
  /\ currentInputRef h' = lit " ".
Proof. vm_compute. repeat split. discriminate. Qed.

(** ** The history is append-only *)

Lemma run_app (es es' : list Event) (h : Hook) :
  run (es ++ es') h = run es' (run es h).
Proof. unfold run. apply fold_left_app. Qed.

Lemma run_appends (es : list Event) :
  forall h,
    exists appended,
      messages (run (filter (fun e => negb (isConnect e)) es) h)
      = messages h ++ appended.
Proof.
  induction es as [|e es IH]; intros h.
  - exists []. cbn. symmetry. apply app_nil_r.
  - cbn [filter]. destruct (isConnect e) eqn:Ec; cbn [negb]; [apply IH|].
    change (run (e :: ?l) h) with (run l (step e h)).
    destruct (IH (step e h)) as [later ->].
    pose proof (step_messages e h) as H.
    destruct e as [env|env| |env m| |err|source|data|p rms settled|b];
      try discriminate; try (rewrite H; exists later; reflexivity).
    destruct H as [appended [-> _]].
    exists (appended ++ later). symmetry. apply app_assoc.
Qed.

(** C8. [connect] resets the chat history to empty; every other event
    leaves the messages already there in place and in order and adds
    at most two at the end (the user message, then the model message,
    of a turn-complete signal, each appended on its own). So along any
    sequence of events without a [connect] the earlier history is a
    prefix of the later one. *)
Theorem messages_append_only (es : list Event) (e : Event) (h : Hook) :
  (if isConnect e
   then messages (step e h) = []
   else exists appended,
          messages (step e h) = messages h ++ appended
          /\ (List.length appended <= 2)%nat)
  /\ exists appended,
       messages (run (filter (fun e => negb (isConnect e)) es) h)
       = messages h ++ appended.
Proof.
  split; [|apply run_appends].
  pose proof (step_messages e h) as H.
  destruct e as [env|env| |env m| |err|source|data|p rms settled|b]; cbn [isConnect];
    try exact H;
    try (exists []; rewrite app_nil_r; split; [exact H|cbn; lia]).
  destruct H as [appended [Hm Hr]]. exists appended. split; [exact Hm|].
  rewrite <- (length_map role), Hr.
  destruct (finalizes m _), (finalizes m _); cbn; lia.
Qed.

(** ** The PCM codec *)

Module PcmFacts.

Import Pcm.

Ltac Zify.zify_post_hook ::= Z.to_euclidean_division_equations.

(** *** Base64 *)

Lemma sextet_table :
  forallb (fun v =>
             match charSextet (sextetChar v) with
             | Some w => N.eqb w v
             | None => false
             end && negb (N.eqb (sextetChar v) pad))
          (List.map N.of_nat (seq 0 64)) = true.
Proof. vm_compute. reflexivity. Qed.

Lemma sextet_inverse (v : N) :
  (v < 64)%N ->
  charSextet (sextetChar v) = Some v /\ N.eqb (sextetChar v) pad = false.
Proof.
  intros Hv.
  pose proof (proj1 (forallb_forall _ _) sextet_table v) as H.
  assert (Hin : In v (List.map N.of_nat (seq 0 64))).
  { rewrite <- (N2Nat.id v). apply in_map. apply in_seq. lia. }
  specialize (H Hin). apply andb_prop in H. destruct H as [H1 H2].
  split.
  - destruct (charSextet (sextetChar v)) as [w|]; [|discriminate].
    apply N.eqb_eq in H1. congruence.
  - apply negb_true_iff. exact H2.
Qed.

Lemma three_step_ind (P : list N -> Prop) :
  P [] -> (forall a, P [a]) -> (forall a b, P [a; b]) ->
  (forall a b c rest, P rest -> P (a :: b :: c :: rest)) ->
  forall l, P l.
Proof.
  intros H0 H1 H2 H3.
  fix IH 1. intros [|a [|b [|c rest]]].
  - exact H0.
  - apply H1.
  - apply H2.
  - apply H3. apply IH.
Qed.

Ltac sextets :=
  repeat match goal with
         | |- context [charSextet (sextetChar ?v)] =>
             let H := fresh in
             assert (H : (v < 64)%N) by lia;
             destruct (sextet_inverse v H) as [-> ?]; clear H
         end.

Ltac pads :=
  repeat match goal with
         | |- context [N.eqb (sextetChar ?v) pad] =>
             let H := fresh in
             assert (H : (v < 64)%N) by lia;
             rewrite (proj2 (sextet_inverse v H)); clear H
         end.

(** [atob] undoes [btoa]. *)
Lemma atob_btoa (bytes : list N) :
  Forall (fun b => (b < 256)%N) bytes -> atob (btoa bytes) = Some bytes.
Proof.
  induction bytes as [|a|a b|a b c rest IH] using three_step_ind; intros Hb.
  - reflexivity.
  - inversion_clear Hb as [|? ? Ha _].
    cbn [btoa atob]. sextets. rewrite N.eqb_refl. cbn.
    f_equal. f_equal. lia.
  - inversion_clear Hb as [|? ? Ha Hb']. inversion_clear Hb' as [|? ? Hb _].
    cbn [btoa atob]. sextets. pads. rewrite N.eqb_refl. cbn.
    f_equal. f_equal; [lia|f_equal; lia].
  - inversion_clear Hb as [|? ? Ha Hb']. inversion_clear Hb' as [|? ? Hb Hc'].
    inversion_clear Hc' as [|? ? Hc Hrest].
    cbn [btoa atob app]. sextets. pads.
    rewrite (IH Hrest).
    f_equal. f_equal; [lia|]. f_equal; [lia|]. f_equal. lia.
Qed.

(** *** Little-endian 16-bit integers *)

Lemma int16Bytes_bytes (i : Z) : Forall (fun b => (b < 256)%N) (int16Bytes i).
Proof.
  unfold int16Bytes. repeat constructor; lia.
Qed.

Lemma littleEndian_bytes (ints : list Z) :
  Forall (fun b => (b < 256)%N) (littleEndian ints).
Proof.
  induction ints as [|i ints IH]; [constructor|].
  cbn [littleEndian]. apply Forall_app. split; [apply int16Bytes_bytes|exact IH].
Qed.

Lemma bytesInt16_int16Bytes (i : Z) :
  (-32768 <= i <= 32767)%Z ->
  match int16Bytes i with
  | [lo; hi] => bytesInt16 lo hi = i
  | _ => False
  end.
Proof.
  intros Hi. unfold int16Bytes, bytesInt16. cbv zeta.
  destruct (32768 <=? _)%Z eqn:E; [apply Z.leb_le in E|apply Z.leb_gt in E]; lia.
Qed.

Lemma fromLittleEndian_littleEndian (ints : list Z) :
  Forall (fun i => (-32768 <= i <= 32767)%Z) ints ->
  fromLittleEndian (littleEndian ints) = Some ints.
Proof.
  induction ints as [|i ints IH]; intros Hr; [reflexivity|].
  inversion_clear Hr as [|? ? Hi Hrest].
  pose proof (bytesInt16_int16Bytes i Hi) as Hb.
  cbn [littleEndian]. unfold int16Bytes in *. cbv zeta in *.
  cbn [app fromLittleEndian]. rewrite (IH Hrest), Hb. reflexivity.
Qed.

(** *** Samples *)

Lemma saturate_range (i : Z) : (-32768 <= saturate i <= 32767)%Z.
Proof. unfold saturate. lia. Qed.

Lemma clamp_range (s : Q) : -1 <= clamp s <= 1.
Proof.
  unfold clamp. split; [apply Q.le_max_l|].
  apply Q.max_lub; [lra|apply Q.le_min_l].
Qed.

Lemma clamp_inside (s : Q) : -1 <= s <= 1 -> clamp s == s.
Proof.
  intros [Hl Hu]. unfold clamp.
  rewrite (Q.min_r 1 s Hu). apply Q.max_r. exact Hl.
Qed.

Lemma clamp_below (s : Q) : s < -1 -> clamp s == -1.
Proof.
  intros Hs. unfold clamp. apply Q.max_l.
  eapply Qle_trans; [apply Q.le_min_r|lra].
Qed.

Lemma clamp_above (s : Q) : 1 < s -> clamp s == 1.
Proof.
  intros Hs. unfold clamp.
  rewrite (Q.min_l 1 s) by lra. apply Q.max_r. lra.
Qed.

Lemma saturate_near (y : Q) (r : Z) :
  -32768 <= y <= 32768 ->
  Qabs (inject_Z r - y) <= 1 ->
  Qabs (inject_Z (saturate r) - y) <= 1.
Proof.
  intros [Hl Hu] Hr.
  apply Qabs_Qle_condition in Hr. apply Qabs_Qle_condition.
  unfold saturate.
  destruct (Z_le_gt_dec r 32767) as [Hhi|Hhi].
  - rewrite (Z.min_r 32767 r Hhi).
    destruct (Z_le_gt_dec (-32768) r) as [Hlo|Hlo].
    + rewrite (Z.max_r _ _ Hlo). exact Hr.
    + rewrite Z.max_l by lia.
      assert (H : inject_Z r <= inject_Z (-32769)) by (rewrite <- Zle_Qle; lia).
      change (inject_Z (-32769)) with (-32769 # 1) in H.
      change (inject_Z (-32768)) with (-32768 # 1). lra.
  - rewrite Z.min_l by lia. rewrite Z.max_r by lia.
    assert (H : inject_Z 32768 <= inject_Z r) by (rewrite <- Zle_Qle; lia).
    change (inject_Z 32768) with (32768 # 1) in H.
    change (inject_Z 32767) with (32767 # 1). lra.
Qed.

Section Rounding.

Variable round : Q -> Z.
Hypothesis round_near : forall q, Qabs (inject_Z (round q) - q) <= 1.

Lemma sample_round_trip (s : Q) :
    Qabs (decodeSample (encodeSample round s) - clamp s) <= step.
  Proof.
    pose proof (clamp_range s) as [Hl Hu].
    assert (Hy : -32768 <= clamp s * 32768 <= 32768) by lra.
    pose proof (saturate_near _ _ Hy (round_near (clamp s * 32768))) as H.
    apply Qabs_Qle_condition in H. apply Qabs_Qle_condition.
    unfold encodeSample, decodeSample, step.
    set (i := inject_Z (saturate (round (clamp s * 32768)))) in *.
    unfold Qdiv. change (/ 32768) with (1 # 32768). lra.
  Qed.

Lemma samples_round_trip (samples : list Q) :
    Forall2 within samples
      (List.map decodeSample (List.map (encodeSample round) samples)).
  Proof.
    induction samples as [|s samples IH]; [constructor|].
    cbn [List.map]. constructor; [|exact IH].
    pose proof (sample_round_trip s) as H.
    apply Qabs_Qle_condition in H. unfold within.
    split; [|split]; intros Hs; apply Qabs_Qle_condition.
    - pose proof (clamp_inside s Hs). lra.
    - pose proof (clamp_below s Hs). lra.
    - pose proof (clamp_above s Hs). lra.
  Qed.

End Rounding.

Lemma truncate_near (q : Q) : Qabs (inject_Z (truncate q) - q) <= 1.
Proof.
  apply Qabs_Qle_condition. unfold truncate.
  destruct (Qle_bool 0 q).
  - pose proof (Qfloor_le q). pose proof (Qlt_floor q) as H1.
    rewrite inject_Z_plus in H1. change (inject_Z 1) with 1 in H1.
    revert H H1. generalize (inject_Z (Qfloor q)). intros f H H1. lra.
  - pose proof (Qle_ceiling q). pose proof (Qceiling_lt q) as H1.
    unfold Z.sub in H1. rewrite inject_Z_plus in H1.
    revert H H1. generalize (inject_Z (Qceiling q)). intros c H H1.
    change (inject_Z (- (1))) with (-1 # 1) in H1. lra.
Qed.

(** C9. Whatever the conversion to an integer, as long as it moves a
    value by at most one, decoding the encoding of a sequence of
    samples succeeds and gives as many samples; each one reproduces
    its input to within one step [1/32768] when the input is in
    [[-1, 1]], and is the boundary value [-1] or [1] to within one
    step when the input is below or above. *)
Theorem pcm_round_trip (round : Q -> Z) (samples : list Q) :
  (forall q, Qabs (inject_Z (round q) - q) <= 1) ->
  exists decoded,
    decodePcm (data (createPcmBlob round samples)) = Some decoded
    /\ Forall2 within samples decoded.
Proof.
  intros Hround. unfold decodePcm, createPcmBlob. cbn [data].
  rewrite (atob_btoa _ (littleEndian_bytes _)).
  rewrite fromLittleEndian_littleEndian.
  - eexists. split; [reflexivity|].
    apply samples_round_trip. exact Hround.
  - apply Forall_forall. intros i Hi.
    apply in_map_iff in Hi. destruct Hi as [s [<- _]].
    apply saturate_range.
Qed.

Lemma pcm_round_trip_witness :
  (forall q, Qabs (inject_Z (truncate q) - q) <= 1)
  /\ exists decoded,
       decodePcm (data (createPcmBlob truncate [1; -1; 1 # 2; -(1 # 3); 5; -7]))
       = Some decoded
       /\ Forall2 within [1; -1; 1 # 2; -(1 # 3); 5; -7] decoded.
Proof.
  split; [exact truncate_near|].
  apply (pcm_round_trip truncate [1; -1; 1 # 2; -(1 # 3); 5; -7] truncate_near).
Defined.

End PcmFacts.

(** * Further properties of the hook *)

(** ** The speaking flag *)

Lemma connectBody_playback (env : ConnectEnv) (h : Hook) :
  activeSourcesRef (stateOf (connectBody env h)) = activeSourcesRef h
  /\ isModelSpeaking (stateOf (connectBody env h)) = isModelSpeaking h
  /\ volume (stateOf (connectBody env h)) = volume h.
Proof.
  destruct env as [si cm a1 a2 a3 a4 a5 a6 a7 a8 a9 a10 a11 a12 a13].
  destruct h as [cs v sp er ms mu ff ut ic oc st pr mr ch act nx se ci co hp].
  unfold connectBody; cbn [newInputContext newOutputContext
    resumeInput resumeOutput getUserMedia newMediaRecorder recorderStart
    createMediaStreamSource createScriptProcessor connectSource connectProcessor
    newGoogleGenAI liveConnect systemInstruction closedIsMuted].
  destruct a1 as [[]|e1]; [|repeat split].
  destruct a2 as [[]|e1]; [|repeat split].
  destruct a3 as [[]|e1]; [|repeat split].
  destruct a4 as [[]|e1]; [|repeat split].
  destruct a5 as [n|e1]; [|repeat split].
  destruct a6 as [[]|e1]; [|repeat split].
  destruct a7 as [[]|e1]; [|repeat split].
  destruct a8 as [[]|e1]; [|repeat split].
  destruct a9 as [[]|e1]; [|repeat split].
  destruct a10 as [[]|e1]; [|repeat split].
  destruct a11 as [[]|e1]; [|repeat split].
  destruct a12 as [[]|e1]; [|repeat split].
  destruct a13 as [[]|e1]; repeat split.
Qed.

Lemma connect_state (env : ConnectEnv) (h : Hook) :
  stateOf (connect env h)
  = match completionOf (connectBody env h) with
    | Normal _ => stateOf (connectBody env h)
    | Throw e =>
        released (setConnectionState ERROR
                    (setError (Some (or_else (messageOf (Some e)) initFailed))
                       (stateOf (connectBody env h))))
    end.
Proof.
  destruct (connectBody env h) as [[[[]|e] h1] o1] eqn:E.
  - unfold connect, tryCatch. rewrite E. reflexivity.
  - rewrite (connect_caught env h e h1 o1 E). reflexivity.
Qed.

Lemma Set_delete_nil (x : handle) : Set_delete x [] = [].
Proof. reflexivity. Qed.

Lemma step_playingImpliesSpeaking (e : Event) (h : Hook) :
  playingImpliesSpeaking h -> playingImpliesSpeaking (step e h).
Proof.
  unfold playingImpliesSpeaking. intros Inv.
  destruct e as [env|env| |env m| |err|source|data|p rms settled|b]; unfold step, handler.
  - rewrite connect_state.
    destruct (connectBody_playback env h) as [Ha [Hs _]].
    destruct (completionOf (connectBody env h)); [|left; reflexivity].
    rewrite Ha, Hs. exact Inv.
  - unfold done. rewrite disconnect_eq. left. reflexivity.
  - unfold done, onopen. run_act. destruct (sessionPromiseRef h); exact Inv.
  - rewrite onmessage_eq. cbn [stateOf fst snd].
    destruct (transcribe_playback env m (stateOf (playAudio env m h)))
      as [_ [-> [-> _]]].
    rewrite playAudio_eq.
    destruct (plays m h); [destruct (decodeAudioData env)|];
      cbn [stateOf fst snd]; [right; reflexivity|right; reflexivity|exact Inv].
  - rewrite onclose_eq. left. reflexivity.
  - rewrite onerror_eq. left. reflexivity.
  - unfold onended. run_act.
    destruct (Set_delete source (activeSourcesRef h)) as [|x l] eqn:Ed; cbn.
    + left. reflexivity.
    + right. destruct Inv as [Hn|Hs]; [|exact Hs].
      rewrite Hn in Ed. discriminate.
  - unfold ondataavailable. destruct (0 <? size data); exact Inv.
  - unfold onaudioprocess. run_act.
    destruct (sessionPromiseRef h); [destruct (capturedIsMuted p); [|destruct settled]|]; exact Inv.
  - exact Inv.
Qed.

(** From the initial state, whatever happens and in whatever order:
    when a buffer source is in the active set, the speaking flag is
    up. *)
Theorem speaking_while_playing (es : list Event) :
  activeSourcesRef (run es initial) = []
  \/ isModelSpeaking (run es initial) = true.
Proof.
  change (playingImpliesSpeaking (run es initial)).
  assert (H : forall h, playingImpliesSpeaking h -> playingImpliesSpeaking (run es h)).
  { induction es as [|e es IH]; intros h Hh; [exact Hh|].
    apply (IH (step e h)). apply step_playingImpliesSpeaking. exact Hh. }
  apply H. left. reflexivity.
Qed.

Lemma onended_state (source : handle) (h : Hook) :
  activeSourcesRef (step (Ended source) h) = Set_delete source (activeSourcesRef h)
  /\ (Set_delete source (activeSourcesRef h) = [] ->
      isModelSpeaking (step (Ended source) h) = false).
Proof.
  unfold step, handler, onended. run_act.
  destruct (Set_delete source (activeSourcesRef h)) eqn:E; cbn.
  - split; [reflexivity|reflexivity].
  - split; [reflexivity|discriminate].
Qed.

Lemma Set_delete_In (x y : handle) (s : list handle) :
  In y (Set_delete x s) <-> In y s /\ x <> y.
Proof.
  unfold Set_delete. rewrite filter_In, negb_true_iff, Nat.eqb_neq. reflexivity.
Qed.

(** Completion events in any order: once every source of the active
    set has ended, the set is empty and the flag is down. *)
Theorem all_ended_stops_speaking (ended : list handle) (h : Hook) :
  ended <> [] ->
  (forall source, In source (activeSourcesRef h) -> In source ended) ->
  activeSourcesRef (run (List.map Ended ended) h) = []
  /\ isModelSpeaking (run (List.map Ended ended) h) = false.
Proof.
  revert h. induction ended as [|x l IH]; intros h Hne Hall; [congruence|].
  cbn [List.map]. change (run (Ended x :: ?r) h) with (run r (step (Ended x) h)).
  destruct (onended_state x h) as [Ha Hs].
  destruct l as [|y l'].
  - cbn [List.map run fold_left].
    assert (E : Set_delete x (activeSourcesRef h) = []).
    { destruct (Set_delete x (activeSourcesRef h)) as [|z r] eqn:Ed; [reflexivity|].
      assert (Hz : In z (Set_delete x (activeSourcesRef h))) by (rewrite Ed; left; reflexivity).
      apply Set_delete_In in Hz. destruct Hz as [Hz Hxz].
      destruct (Hall z Hz) as [->|[]]. congruence. }
    split; [rewrite Ha; exact E|exact (Hs E)].
  - apply IH; [discriminate|].
    intros source Hin. rewrite Ha in Hin.
    apply Set_delete_In in Hin. destruct Hin as [Hin Hx].
    destruct (Hall source Hin) as [->|Hl]; [congruence|exact Hl].
Qed.

Lemma all_ended_stops_speaking_witness :
  [7; 6]%nat <> []
  /\ (forall source, In source (activeSourcesRef twoPlaying) -> In source [7; 6]%nat)
  /\ activeSourcesRef (run (List.map Ended [7; 6]%nat) twoPlaying) = []
  /\ isModelSpeaking (run (List.map Ended [7; 6]%nat) twoPlaying) = false.
Proof.
  assert (Hne : [7; 6]%nat <> []) by discriminate.
  assert (Hall : forall source,
             In source (activeSourcesRef twoPlaying) -> In source [7; 6]%nat).
  { vm_compute. intros source [<-|[<-|[]]]; auto. }
  split; [exact Hne|]. split; [exact Hall|].
  exact (all_ended_stops_speaking [7; 6]%nat twoPlaying Hne Hall).
Defined.

(** ** Audio after the teardown, and gapless scheduling *)

Lemma onmessages_silent (ms : list (MessageEnv * GenAI.LiveServerMessage)) :
  forall h,
    outputAudioContextRef h = None ->
    effectsOf (onmessages ms h) = []
    /\ isModelSpeaking (stateOf (onmessages ms h)) = isModelSpeaking h
    /\ activeSourcesRef (stateOf (onmessages ms h)) = activeSourcesRef h
    /\ nextStartTimeRef (stateOf (onmessages ms h)) = nextStartTimeRef h.
Proof.
  induction ms as [|[env m] ms IH]; intros h Hout; [repeat split|].
  rewrite onmessages_cons. cbn [stateOf effectsOf fst snd].
  assert (Hp : plays m h = false).
  { unfold plays. rewrite Hout. destruct (audioDataOf m); reflexivity. }
  assert (Hs : stateOf (onmessage env m h) = transcribe env m h).
  { rewrite onmessage_eq, playAudio_eq, Hp. reflexivity. }
  assert (He : effectsOf (onmessage env m h) = []).
  { rewrite onmessage_eq, playAudio_eq, Hp. reflexivity. }
  destruct (transcribe_playback env m h) as [Hc [Ha [Hsp [Ho _]]]].
  rewrite Hs, He.
  destruct (IH (transcribe env m h)) as [-> [-> [-> ->]]].
  - rewrite Ho. exact Hout.
  - repeat split; assumption.
Qed.

(** Audio that arrives after the session was closed is dropped: no
    buffer is started, the flag stays down, the active set stays empty
    and the cursor stays at zero. *)
Theorem late_audio_is_dropped
    (ms : list (MessageEnv * GenAI.LiveServerMessage)) (h : Hook) :
  let closed := stateOf (onclose h) in
  effectsOf (onmessages ms closed) = []
  /\ isModelSpeaking (stateOf (onmessages ms closed)) = false
  /\ activeSourcesRef (stateOf (onmessages ms closed)) = []
  /\ nextStartTimeRef (stateOf (onmessages ms closed)) = 0.
Proof.
  cbv zeta. rewrite onclose_eq. cbn [stateOf fst snd].
  destruct (onmessages_silent ms
              (released (setConnectionState DISCONNECTED h)) eq_refl)
    as [-> [-> [-> ->]]].
  repeat split.
Qed.

Lemma Qmax_left (x y : Q) : y <= x -> Qmax x y = x.
Proof.
  intros Hle. unfold Qmax, GenericMinMax.gmax.
  destruct (x ?= y) eqn:E; try reflexivity.
  apply Qlt_alt in E. apply Qle_not_lt in Hle. contradiction.
Qed.

(** Two audio payloads in a row that both decode: when the clock has
    not passed the cursor by the time the second one is handled, the
    second buffer starts exactly where the first one ends. *)
Theorem back_to_back_is_gapless
    (env1 env2 : MessageEnv) (m1 m2 : GenAI.LiveServerMessage)
    (b1 b2 : AudioBuffer) (h : Hook) :
  plays m1 h = true ->
  plays m2 h = true ->
  decodeAudioData env1 = Normal b1 ->
  decodeAudioData env2 = Normal b2 ->
  currentTime env2 <= nextStartTimeRef (stateOf (onmessage env1 m1 h)) ->
  let start1 := Qmax (nextStartTimeRef h) (currentTime env1) in
  scheduled (effectsOf (onmessages [(env1, m1); (env2, m2)] h))
  = [(start1, b1); (start1 + duration b1, b2)].
Proof.
  intros Hp Ha D1 D2 Hclock. cbv zeta.
  rewrite onmessages_cons. cbn [effectsOf snd]. rewrite scheduled_app.
  rewrite onmessages_cons. cbn [effectsOf snd onmessages ret].
  rewrite app_nil_r.
  set (h1 := stateOf (onmessage env1 m1 h)) in *.
  assert (Hh1 : nextStartTimeRef h1
                = Qmax (nextStartTimeRef h) (currentTime env1) + duration b1
                /\ outputAudioContextRef h1 = outputAudioContextRef h).
  { unfold h1. rewrite onmessage_eq. cbn [stateOf fst snd].
    destruct (transcribe_playback env1 m1 (stateOf (playAudio env1 m1 h)))
      as [-> [_ [_ [-> _]]]].
    rewrite playAudio_eq, Hp, D1. split; reflexivity. }
  destruct Hh1 as [Hc Ho].
  assert (Hp2 : plays m2 h1 = true).
  { unfold plays in *. rewrite Ho. exact Ha. }
  rewrite !onmessage_eq. cbn [effectsOf snd].
  rewrite !playAudio_eq, Hp, Hp2, D1, D2. cbn [effectsOf snd scheduled app].
  rewrite (Qmax_left _ _ Hclock), Hc. reflexivity.
Qed.

Lemma back_to_back_is_gapless_witness :
  let env1 := decoded 0 oneSecond in
  let env2 := decoded (1 # 2) oneSecond in
  let m := audioMessage (lit "AAAA") in
  (plays m connected = true
   /\ decodeAudioData env1 = Normal oneSecond
   /\ decodeAudioData env2 = Normal oneSecond
   /\ currentTime env2 <= nextStartTimeRef (stateOf (onmessage env1 m connected)))
  /\ scheduled (effectsOf (onmessages [(env1, m); (env2, m)] connected))
     = [(Qmax 0 0, oneSecond); (Qmax 0 0 + duration oneSecond, oneSecond)].
Proof.
  cbv zeta.
  assert (Hclock : currentTime (decoded (1 # 2) oneSecond)
                   <= nextStartTimeRef
                        (stateOf (onmessage (decoded 0 oneSecond)
                                    (audioMessage (lit "AAAA")) connected))).
  { vm_compute. discriminate. }
  split; [repeat split; exact Hclock|].
  exact (back_to_back_is_gapless
           (decoded 0 oneSecond) (decoded (1 # 2) oneSecond)
           (audioMessage (lit "AAAA")) (audioMessage (lit "AAAA"))
           oneSecond oneSecond connected
           eq_refl eq_refl eq_refl eq_refl Hclock).
Defined.

(** ** Devices over a whole session *)

Lemma reaches_covered (h : Hook) (d : Device) :
  reaches h [d] ->
  exists e, In e (releaseEffects h) /\ releases e = Some d.
Proof.
  intros Hreach. specialize (Hreach d (or_introl eq_refl)).
  destruct d as [k x]. unfold releaseEffects. destruct k.
  - destruct Hreach as [E|E].
    + exists (ContextClose x). split; [|reflexivity].
      rewrite E, !in_app_iff. do 3 right. left. left. reflexivity.
    + exists (ContextClose x). split; [|reflexivity].
      rewrite E, !in_app_iff. do 4 right. left. left. reflexivity.
  - destruct Hreach as [s [E Hin]].
    exists (TrackStop x). split; [|reflexivity].
    rewrite E, !in_app_iff. right. left. apply in_map. exact Hin.
  - exists (RecorderStop x). split; [|reflexivity].
    rewrite Hreach, !in_app_iff. left. left. reflexivity.
  - destruct Hreach as [muted E].
    exists (ProcessorDisconnect x). split; [|reflexivity].
    rewrite E, !in_app_iff. do 2 right. left. left. reflexivity.
  - exists (SourceStop x). split; [|reflexivity].
    rewrite !in_app_iff. do 5 right. apply in_map. exact Hreach.
  - destruct Hreach.
Qed.

Lemma connect_succeeds (env : ConnectEnv) (h : Hook) :
  firstThrow env = None ->
  connect env h = connectBody env h.
Proof.
  intros F. destruct (connectBody_succeeds env h F) as [h1 [o1 [E _]]].
  unfold connect, tryCatch. rewrite E. reflexivity.
Qed.

(** A session that was set up without a throw and is ended by
    [disconnect] once its promise is fulfilled holds no device
    afterwards: both contexts are closed, every track is stopped, the
    recorder is stopped, the processor node is disconnected and the
    remote session is closed. *)
Theorem connect_then_disconnect_releases
    (env : ConnectEnv) (after : DisconnectEnv) (h : Hook) :
  firstThrow env = None ->
  awaitSession after = Normal tt ->
  let opened := connect env h in
  heldAfter (effectsOf opened ++ effectsOf (disconnect after (stateOf opened))) = [].
Proof.
  intros F Haw. cbv zeta. rewrite (connect_succeeds env h F).
  destruct (connectBody_succeeds env h F)
    as [h1 [o1 [E [_ [_ [_ [[s [Hs Hheld]] _]]]]]]].
  rewrite E. cbn [stateOf effectsOf fst snd].
  rewrite disconnect_eq, Hs, Haw. cbn [effectsOf snd].
  unfold heldAfter. rewrite fold_left_app.
  apply releases_leave_none.
  - intros e [<-|He]; [reflexivity|].
    apply (releaseEffects_release h1). exact He.
  - intros d Hd. destruct (Hheld d Hd) as [->|Hreach].
    + exists (SessionClose (session s)). split; [left; reflexivity|reflexivity].
    + destruct (reaches_covered h1 d Hreach) as [e [He Hr]].
      exists e. split; [right; exact He|exact Hr].
Qed.

Lemma connect_then_disconnect_releases_witness :
  let after := {| awaitSession := Normal tt; sessionClose := Normal tt |} in
  (firstThrow allGood = None /\ awaitSession after = Normal tt)
  /\ heldAfter (effectsOf (connect allGood initial)
               ++ effectsOf (disconnect after (stateOf (connect allGood initial)))) = [].
Proof.
  cbv zeta. split; [split; reflexivity|].
  exact (connect_then_disconnect_releases allGood
           {| awaitSession := Normal tt; sessionClose := Normal tt |} initial
           eq_refl eq_refl).
Defined.

Lemma perform_keeps (rs : list Effect) (d : Device) :
  (forall e, In e rs -> releases e <> Some d) ->
  forall held, In d held -> In d (fold_left perform rs held).
Proof.
  induction rs as [|e rs IH]; intros Hrs held Hin; [exact Hin|].
  cbn [fold_left]. apply IH.
  - intros e' He'. apply Hrs. right. exact He'.
  - unfold perform.
    destruct (releases e) as [d0|] eqn:Er.
    + apply filter_In. split; [exact Hin|].
      apply negb_true_iff. destruct (Device_eqb d0 d) eqn:Eq; [|reflexivity].
      exfalso. apply (Hrs e (or_introl eq_refl)). rewrite Er. f_equal.
      unfold Device_eqb in Eq. apply andb_prop in Eq. destruct Eq as [Ek En].
      apply Nat.eqb_eq in En. destruct d0 as [k0 x0], d as [k x]. cbn in *.
      subst. destruct k0, k; try discriminate; reflexivity.
    + apply in_or_app. right. exact Hin.
Qed.

Lemma releaseEffects_contexts (h : Hook) (e : Effect) (c : handle) :
  In e (releaseEffects h) -> releases e = Some (Context, c) ->
  inputAudioContextRef h = Some {| ctx := c |}
  \/ outputAudioContextRef h = Some {| ctx := c |}.
Proof.
  unfold releaseEffects. rewrite !in_app_iff.
  intros [H|[H|[H|[H|[H|H]]]]] Hr.
  - destruct (mediaRecorderRef h) as [r|]; [|destruct H].
    destruct (isInactive (state r)); [destruct H|].
    destruct H as [<-|[]]. discriminate.
  - destruct (mediaStreamRef h) as [s|]; [|destruct H].
    apply in_map_iff in H. destruct H as [t [<- _]]. discriminate.
  - destruct (scriptProcessorRef h); [|destruct H].
    destruct H as [<-|[]]. discriminate.
  - destruct (inputAudioContextRef h) as [[c']|]; [|destruct H].
    destruct H as [<-|[]]. injection Hr as ->. left. reflexivity.
  - destruct (outputAudioContextRef h) as [[c']|]; [|destruct H].
    destruct H as [<-|[]]. injection Hr as ->. right. reflexivity.
  - apply in_map_iff in H. destruct H as [t [<- _]]. discriminate.
Qed.

(** [connect] does not look at a session that is already there: a
    second [connect] overwrites the refs, and the [disconnect] that
    follows closes the contexts of the second session only. Both
    audio contexts of the first session are still open afterwards. *)
Theorem second_connect_leaks_first
    (env1 env2 : ConnectEnv) (after : DisconnectEnv) (h : Hook) :
  firstThrow env1 = None ->
  firstThrow env2 = None ->
  let first := connect env1 h in
  let second := connect env2 (stateOf first) in
  let closed := disconnect after (stateOf second) in
  let held := heldAfter (effectsOf first ++ effectsOf second ++ effectsOf closed) in
  In (Context, heap h) held /\ In (Context, S (heap h)) held.
Proof.
  intros F1 F2. cbv zeta.
  rewrite (connect_succeeds env1 h F1).
  destruct (connectBody_succeeds env1 h F1)
    as [h1 [o1 [E1 [_ [_ [_ [_ [Hi1 [Ho1 [Hheap1 [_ [Hacq1 Hfirst]]]]]]]]]]]].
  rewrite E1. cbn [stateOf effectsOf fst snd].
  rewrite (connect_succeeds env2 h1 F2).
  destruct (connectBody_succeeds env2 h1 F2)
    as [h2 [o2 [E2 [_ [_ [_ [_ [Hi2 [Ho2 [_ [_ [Hacq2 _]]]]]]]]]]]].
  rewrite E2. cbn [stateOf effectsOf fst snd].
  rewrite disconnect_eq. cbn [effectsOf snd].
  assert (Hkeep : forall c, (c < heap h1)%nat ->
            forall e, In e (o2 ++ match sessionPromiseRef h2, awaitSession after with
                                  | Some s, Normal _ => [SessionClose (session s)]
                                  | _, _ => []
                                  end ++ releaseEffects h2) ->
                      releases e <> Some (Context, c)).
  { intros c Hc e He Hr. rewrite !in_app_iff in He.
    destruct He as [He|[He|He]].
    - rewrite Forall_forall in Hacq2. rewrite (Hacq2 e He) in Hr. discriminate.
    - destruct (sessionPromiseRef h2); [|destruct He].
      destruct (awaitSession after); [|destruct He].
      destruct He as [<-|[]]. discriminate.
    - destruct (releaseEffects_contexts h2 e c He Hr) as [H|H].
      + rewrite Hi2 in H. injection H as H. unfold handle in *. lia.
      + rewrite Ho2 in H. injection H as H. unfold handle in *. lia. }
  unfold heldAfter. rewrite fold_left_app.
  split; apply perform_keeps; try apply Hfirst; apply Hkeep;
    unfold handle in *; lia.
Qed.

Lemma second_connect_leaks_first_witness :
  let after := {| awaitSession := Normal tt; sessionClose := Normal tt |} in
  (firstThrow allGood = None /\ firstThrow allGood = None)
  /\ In (Context, heap initial)
       (heldAfter (effectsOf (connect allGood initial)
                   ++ effectsOf (connect allGood (stateOf (connect allGood initial)))
                   ++ effectsOf (disconnect after
                        (stateOf (connect allGood (stateOf (connect allGood initial)))))))
  /\ In (Context, S (heap initial))
       (heldAfter (effectsOf (connect allGood initial)
                   ++ effectsOf (connect allGood (stateOf (connect allGood initial)))
                   ++ effectsOf (disconnect after
                        (stateOf (connect allGood (stateOf (connect allGood initial))))))).
Proof.
  cbv zeta. split; [split; reflexivity|].
  exact (second_connect_leaks_first allGood allGood
           {| awaitSession := Normal tt; sessionClose := Normal tt |} initial
           eq_refl eq_refl).
Defined.

(** The teardown releases every device its refs reach: whatever was
    held, if each held device is a context, a track, a recording
    recorder, a processor node or an active source that the refs
    point to, nothing is held after the calls of the teardown. *)
Theorem teardown_releases_reachable (h : Hook) (held : list Device) :
  reaches h held ->
  fold_left perform (effectsOf (stopAudioProcessing h)) held = [].
Proof.
  intros Hreach. rewrite stopAudioProcessing_eq. cbn [effectsOf snd].
  apply teardown_releases. exact Hreach.
Qed.

Lemma teardown_releases_reachable_witness :
  let held := [(Source, 7); (Source, 6); (Processor, 4); (Recorder, 3);
               (Track, 2); (Context, 1); (Context, 0)]%nat in
  reaches twoPlaying held
  /\ fold_left perform (effectsOf (stopAudioProcessing twoPlaying)) held = [].
Proof.
  cbv zeta.
  assert (Hreach : reaches twoPlaying
            [(Source, 7); (Source, 6); (Processor, 4); (Recorder, 3);
             (Track, 2); (Context, 1); (Context, 0)]%nat).
  { intros d Hd. vm_compute in Hd.
    repeat (destruct Hd as [<-|Hd]); try destruct Hd; vm_compute;
      first [ left; reflexivity | right; reflexivity | right; left; reflexivity
            | eexists; split; [reflexivity|left; reflexivity]
            | eexists; reflexivity | reflexivity ]. }
  split; [exact Hreach|].
  exact (teardown_releases_reachable twoPlaying _ Hreach).
Defined.

(** ** The recording *)

Lemma concat_nonempty (blobs : list Blob) :
  List.concat (List.map content (filter (fun b => 0 <? size b) blobs))
  = List.concat (List.map content blobs).
Proof.
  induction blobs as [|b blobs IH]; [reflexivity|].
  cbn [filter]. unfold size at 1.
  destruct (content b) as [|x l] eqn:Ec; cbn [List.length Nat.ltb Nat.leb].
  - cbn [List.map List.concat]. rewrite Ec. exact IH.
  - cbn [List.map List.concat]. f_equal. exact IH.
Qed.

Lemma run_dataavailable (blobs : list Blob) :
  forall h,
    audioChunksRef (run (List.map DataAvailable blobs) h)
    = audioChunksRef h ++ filter (fun b => 0 <? size b) blobs.
Proof.
  induction blobs as [|b blobs IH]; intros h.
  - cbn. symmetry. apply app_nil_r.
  - cbn [List.map filter].
    change (run (DataAvailable b :: ?r) h) with (run r (step (DataAvailable b) h)).
    rewrite IH. unfold step, handler, ondataavailable.
    destruct (0 <? size b); cbn; [rewrite <- app_assoc|]; reflexivity.
Qed.

(** The recorder's chunks are kept in arrival order, empty ones are
    skipped, and [disconnect] returns exactly the bytes that arrived,
    in order, as one [audio/webm] blob; it returns [null] only when no
    chunk was kept. *)
Theorem recording_is_what_arrived
    (blobs : list Blob) (after : DisconnectEnv) (h : Hook) :
  let h' := run (List.map DataAvailable blobs) h in
  audioChunksRef h' = audioChunksRef h ++ filter (fun b => 0 <? size b) blobs
  /\ match completionOf (disconnect after h') with
     | Normal (Some b) =>
         content b = List.concat (List.map content (audioChunksRef h ++ blobs))
         /\ type b = lit "audio/webm"
     | Normal None =>
         audioChunksRef h = [] /\ List.concat (List.map content blobs) = []
     | Throw _ => False
     end.
Proof.
  cbv zeta. split; [apply run_dataavailable|].
  rewrite disconnect_eq. cbn [completionOf fst]. rewrite run_dataavailable.
  destruct (audioChunksRef h ++ filter (fun b => 0 <? size b) blobs) as [|c l] eqn:E.
  - cbn. apply app_eq_nil in E. destruct E as [E1 E2]. split; [exact E1|].
    rewrite <- concat_nonempty, E2. reflexivity.
  - cbn [List.length Nat.ltb Nat.leb]. split; [|reflexivity].
    unfold newBlob; cbn [content]. rewrite <- E.
    rewrite !map_app, !concat_app, concat_nonempty. reflexivity.
Qed.

(** ** Forwarding and the mute flag *)

(** The node [connect] creates carries the mute flag its closure
    holds, that of the render that built this [connect], whatever the
    flag is in the state the call runs in. A frame is forwarded, once,
    exactly when there is a session promise, the node's flag is off
    and the promise is fulfilled; a rejected promise sends nothing
    and throws nothing. Switching the flag later changes nothing for
    that node. *)
Theorem forwarding_follows_mute_at_connect
    (env : ConnectEnv) (later : bool) (rms : Q) (settled : Completion unit)
    (p : ScriptProcessorNode) (h : Hook) :
  firstThrow env = None ->
  (exists created,
     scriptProcessorRef (stateOf (connect env h)) = Some created
     /\ capturedIsMuted created = closedIsMuted env)
  /\ completionOf (onaudioprocess p rms settled h) = Normal tt
  /\ effectsOf (onaudioprocess p rms settled h)
     = match sessionPromiseRef h, capturedIsMuted p, settled with
       | Some s, false, Normal _ => [SessionSendRealtimeInput (session s)]
       | _, _, _ => []
       end
  /\ effectsOf (onaudioprocess p rms settled (step (SetIsMuted later) h))
     = effectsOf (onaudioprocess p rms settled h).
Proof.
  intros F. split; [|split; [|split]].
  - rewrite (connect_succeeds env h F).
    destruct (connectBody_succeeds env h F)
      as [h1 [o1 [E [_ [_ [_ [_ [_ [_ [_ [_ [_ [_ [_ Hp]]]]]]]]]]]]]].
    rewrite E. exact Hp.
  - unfold onaudioprocess. run_act.
    destruct (sessionPromiseRef h); [destruct (capturedIsMuted p); [|destruct settled]|];
      reflexivity.
  - unfold onaudioprocess. run_act.
    destruct (sessionPromiseRef h); [destruct (capturedIsMuted p); [|destruct settled]|];
      reflexivity.
  - unfold onaudioprocess, step, handler. run_act.
    destruct (sessionPromiseRef h); [destruct (capturedIsMuted p); [|destruct settled]|];
      reflexivity.
Qed.

Lemma forwarding_follows_mute_at_connect_witness :
  let muted := step (SetIsMuted true) initial in
  let p := {| node := 4%nat; capturedIsMuted := false |} in
  firstThrow allGood = None
  /\ isMuted muted = true
  /\ scriptProcessorRef (stateOf (connect allGood muted)) = Some p
  /\ effectsOf (onaudioprocess p (1 # 10) (Normal tt) (run [Connect allGood; Open] muted))
     = [SessionSendRealtimeInput 5%nat].
Proof.
  cbv zeta. split; [reflexivity|]. split; [reflexivity|]. split; [reflexivity|].
  rewrite (proj1 (proj2 (proj2
             (forwarding_follows_mute_at_connect allGood true (1 # 10) (Normal tt)
                {| node := 4%nat; capturedIsMuted := false |}
                (run [Connect allGood; Open] (step (SetIsMuted true) initial))
                eq_refl)))).
  reflexivity.
Defined.

(** ** The volume *)

Lemma transcribe_volume (env : MessageEnv) (m : GenAI.LiveServerMessage) (h : Hook) :
  volume (transcribe env m h) = volume h.
Proof. transcribe_cases env m h; reflexivity. Qed.

Lemma step_volume (e : Event) (h : Hook) :
  volume (step e h) = volume h
  \/ volume (step e h) = 0
  \/ exists p rms settled,
       e = AudioProcess p rms settled /\ volume (step e h) = Qmin (rms * 5) 1.
Proof.
  destruct e as [env|env| |env m| |err|source|data|p rms settled|b]; unfold step, handler.
  - rewrite connect_state.
    destruct (connectBody_playback env h) as [_ [_ Hv]].
    destruct (completionOf (connectBody env h)); [left; exact Hv|right; left; reflexivity].
  - unfold done. rewrite disconnect_eq. right. left. reflexivity.
  - unfold done, onopen. run_act. destruct (sessionPromiseRef h); left; reflexivity.
  - rewrite onmessage_eq. cbn [stateOf fst snd]. rewrite transcribe_volume.
    rewrite playAudio_eq. left.
    destruct (plays m h); [destruct (decodeAudioData env)|]; reflexivity.
  - rewrite onclose_eq. right. left. reflexivity.
  - rewrite onerror_eq. right. left. reflexivity.
  - unfold onended. run_act. left.
    destruct (Nat.eqb _ 0); reflexivity.
  - unfold ondataavailable. left. destruct (0 <? size data); reflexivity.
  - right. right. exists p, rms, settled. split; [reflexivity|].
    unfold onaudioprocess. run_act.
    destruct (sessionPromiseRef h); [destruct (capturedIsMuted p); [|destruct settled]|]; reflexivity.
  - left. reflexivity.
Qed.

(** The level shown to the visualizer stays between zero and one. *)
Theorem volume_is_a_level (es : list Event) :
  nonNegativeFrames es ->
  0 <= volume (run es initial) <= 1.
Proof.
  assert (H : forall h, 0 <= volume h <= 1 ->
                        nonNegativeFrames es -> 0 <= volume (run es h) <= 1).
  { induction es as [|e es IH]; intros h Hh Hes; [exact Hh|].
    inversion_clear Hes as [|? ? He Hrest].
    apply (IH (step e h)); [|exact Hrest].
    destruct (step_volume e h) as [->|[->|[p [rms [settled [-> ->]]]]]].
    - exact Hh.
    - split; [apply Qle_refl|discriminate].
    - split.
      + apply Q.min_glb; [|discriminate].
        cbn in He. apply Qmult_le_0_compat; [exact He|discriminate].
      + apply Q.le_min_r. }
  intros Hes. apply H; [|exact Hes].
  split; [apply Qle_refl|discriminate].
Qed.

Lemma volume_is_a_level_witness :
  let es := [Connect allGood; Open;
             AudioProcess {| node := 4%nat; capturedIsMuted := false |} (3 # 10) (Normal tt);
             AudioProcess {| node := 4%nat; capturedIsMuted := false |} (1 # 20) (Normal tt)] in
  nonNegativeFrames es /\ 0 <= volume (run es initial) <= 1.
Proof.
  cbv zeta.
  assert (H : nonNegativeFrames
                [Connect allGood; Open;
                 AudioProcess {| node := 4%nat; capturedIsMuted := false |} (3 # 10) (Normal tt);
                 AudioProcess {| node := 4%nat; capturedIsMuted := false |} (1 # 20) (Normal tt)]).
  { repeat constructor; discriminate. }
  split; [exact H|]. exact (volume_is_a_level _ H).
Defined.

(** ** Strings the hook tests *)

Lemma startsWith_app (p post : jsstring) : startsWith (p ++ post) p = true.
Proof.
  induction p as [|c p IH]; [destruct post; reflexivity|].
  cbn. rewrite N.eqb_refl. exact IH.
Qed.

Lemma includes_app (pre p post : jsstring) : includes (pre ++ p ++ post) p = true.
Proof.
  induction pre as [|c pre IH].
  - cbn [app]. destruct (p ++ post) eqn:E; cbn [includes];
      rewrite <- E, startsWith_app; reflexivity.
  - cbn [app includes]. rewrite IH. apply orb_true_r.
Qed.

(** Any remote error whose text has ["404"] or the not-found phrase
    somewhere in it, whatever comes before and after, surfaces as the
    billing sentinel. *)
Theorem any_404_is_billing (before after : jsstring) (h : Hook) :
  error (stateOf (onerror (Some {| message := Some (before ++ lit "404" ++ after) |}) h))
  = Some (lit "BILLING_REQUIRED")
  /\ error (stateOf (onerror
       (Some {| message := Some (before ++ lit "Requested entity was not found" ++ after) |})
       h))
     = Some (lit "BILLING_REQUIRED").
Proof.
  rewrite !onerror_eq. cbn [stateOf fst snd]. unfold released; cbn [error setError].
  cbn [messageOf message].
  unfold signature404, notFoundSignature.
  rewrite !includes_app, orb_true_r. split; reflexivity.
Qed.

Lemma trimStart_nil (s : jsstring) :
  trimStart s = [] <-> existsb (fun c => negb (isWhiteSpace c)) s = false.
Proof.
  induction s as [|c s IH]; [split; reflexivity|].
  cbn. destruct (isWhiteSpace c); cbn; [exact IH|].
  split; discriminate.
Qed.

Lemma trimStart_visible (s : jsstring) :
  existsb (fun c => negb (isWhiteSpace c)) (trimStart s)
  = existsb (fun c => negb (isWhiteSpace c)) s.
Proof.
  induction s as [|c s IH]; [reflexivity|].
  cbn. destruct (isWhiteSpace c) eqn:E; cbn; [exact IH|].
  rewrite E. reflexivity.
Qed.

Lemma existsb_rev {A} (f : A -> bool) (l : list A) :
  existsb f (rev l) = existsb f l.
Proof.
  induction l as [|x l IH]; [reflexivity|].
  cbn. rewrite existsb_app, IH. cbn. rewrite orb_false_r. apply orb_comm.
Qed.

(** [s.trim()] is truthy exactly when [s] has a code unit that is not
    white space. *)
Lemma trim_truthy (s : jsstring) :
  truthy (trim s) = existsb (fun c => negb (isWhiteSpace c)) s.
Proof.
  unfold trim, trimEnd.
  rewrite <- (trimStart_visible s), <- (existsb_rev _ (trimStart s)).
  generalize (rev (trimStart s)). intros l.
  destruct (existsb (fun c => negb (isWhiteSpace c)) l) eqn:E.
  - destruct (trimStart l) as [|x r] eqn:Et.
    + apply trimStart_nil in Et. congruence.
    + cbn [rev]. destruct (rev r); reflexivity.
  - apply trimStart_nil in E. rewrite E. reflexivity.
Qed.

(** How many messages one server message adds: one for the user when
    it signals the end of the turn and the user utterance, the
    fragment of this message included, has a code unit that is not
    white space; one for the model under the same condition on the
    model utterance. *)
Theorem messages_added_per_turn
    (env : MessageEnv) (m : GenAI.LiveServerMessage) (h : Hook) :
  let visible := existsb (fun c => negb (isWhiteSpace c)) in
  let input := currentInputRef h ++ fragment GenAI.inputTranscription m in
  let output := currentOutputRef h ++ fragment GenAI.outputTranscription m in
  List.length (messages (stateOf (onmessage env m h)))
  = (List.length (messages h)
     + (if turnCompleteOf m && visible input then 1 else 0)
     + (if turnCompleteOf m && visible output then 1 else 0))%nat.
Proof.
  cbv zeta.
  destruct (onmessage_history env m h) as [[appended [-> [Hr _]]] _].
  rewrite length_app, <- (length_map role appended), Hr.
  unfold finalizes. rewrite !trim_truthy, length_app.
  destruct (turnCompleteOf m && _), (turnCompleteOf m && _); cbn; lia.
Qed.

(** ** The text of the appended messages *)

(** When React runs the two message updaters at the render, as it does
    when an update is pending on the component at the calls, every
    message a server message appends has the empty string as its
    text: each accumulator is cleared between the call and the
    render, and the updater reads it at the render. *)
Theorem text_read_at_render_is_empty
    (env : MessageEnv) (m : GenAI.LiveServerMessage) (h : Hook) :
  userUpdaterAtCall env = false -> modelUpdaterAtCall env = false ->
  let input := currentInputRef h ++ fragment GenAI.inputTranscription m in
  let output := currentOutputRef h ++ fragment GenAI.outputTranscription m in
  exists appended,
    messages (stateOf (onmessage env m h)) = messages h ++ appended
    /\ List.map text appended
       = (if turnCompleteOf m && truthy (trim input) then [[]] else [])
         ++ (if turnCompleteOf m && truthy (trim output) then [[]] else []).
Proof.
  intros Hu Hm. cbv zeta.
  destruct (onmessage_history env m h) as [[appended [Ha [_ Ht]]] _].
  exists appended. split; [exact Ha|].
  rewrite Ht, Hu, Hm. reflexivity.
Qed.

Lemma text_read_at_render_is_empty_witness :
  let env := decoded 0 oneSecond in
  let heard := run [Message env (inputFragment (lit "hello"))] connected in
  currentInputRef heard = lit "hello"
  /\ List.map text (messages (stateOf (onmessage env turnCompleteMessage heard))) = [[]].
Proof.
  cbv zeta. split; [reflexivity|].
  destruct (text_read_at_render_is_empty (decoded 0 oneSecond) turnCompleteMessage
              (run [Message (decoded 0 oneSecond) (inputFragment (lit "hello"))] connected)
              eq_refl eq_refl) as [appended [-> Ht]].
  rewrite map_app. rewrite Ht. reflexivity.
Defined.

(** * The countdown *)

Module TimerFacts.

Import Timer.

Lemma run_tick (k : nat) (s : State) :
  run (ticks (S k)) s = run (ticks k) (step Tick s).
Proof. reflexivity. Qed.

(** Ticks on a time left that is a natural number. *)
Lemma ticks_natural (k : nat) :
  forall (s : State) (z : Z),
    isActive s = true -> (0 <= z)%Z -> timeLeft s == inject_Z z ->
    timeLeft (run (ticks k) s) == inject_Z (Z.max 0 (z - Z.of_nat k))
    /\ completions (run (ticks k) s)
       = (completions s
          + if (1 <=? z)%Z && (z <=? Z.of_nat k)%Z then 1 else 0)%nat.
Proof.
  induction k as [|k IH]; intros s z Ha Hz Ht.
  - cbn [ticks repeat run fold_left]. split.
    + rewrite Z.sub_0_r, Z.max_r by lia. exact Ht.
    + replace ((1 <=? z)%Z && (z <=? Z.of_nat 0)%Z) with false; [lia|].
      symmetry. apply andb_false_iff.
      destruct (Z.leb_spec 1 z); [right; apply Z.leb_gt; lia|left; reflexivity].
  - rewrite run_tick.
    assert (Hstep : isActive (step Tick s) = true
              /\ timeLeft (step Tick s) == inject_Z (Z.max 0 (z - 1))
              /\ completions (step Tick s)
                 = (completions s + if (z =? 1)%Z then 1 else 0)%nat).
    { unfold step. rewrite Ha. cbn [isActive timeLeft completions].
      split; [reflexivity|]. unfold countdown.
      destruct (Qle_bool (timeLeft s) 0) eqn:El; cbn [fst snd].
      - apply Qle_bool_iff in El. rewrite Ht in El.
        change 0 with (inject_Z 0) in El. rewrite <- Zle_Qle in El.
        assert (z = 0%Z) by lia. subst z. split; [reflexivity|]. cbn. lia.
      - assert (Hpos : (0 < z)%Z).
        { destruct (Z_le_gt_dec z 0) as [Hle|Hgt]; [|lia].
          exfalso. rewrite Zle_Qle in Hle. rewrite <- Ht in Hle.
          apply Qle_bool_iff in Hle. change (inject_Z 0) with 0 in Hle. congruence. }
        assert (Hnew : timeLeft s - 1 == inject_Z (z - 1)).
        { rewrite Ht. unfold Z.sub. rewrite inject_Z_plus. reflexivity. }
        split.
        + rewrite Hnew, Z.max_r by lia. reflexivity.
        + destruct (Qeq_bool (timeLeft s - 1) 0) eqn:Ee.
          * apply Qeq_bool_iff in Ee. rewrite Hnew in Ee.
            unfold Qeq in Ee. cbn in Ee.
            replace (z =? 1)%Z with true; [lia|].
            symmetry. apply Z.eqb_eq. lia.
          * replace (z =? 1)%Z with false; [lia|].
            symmetry. apply Z.eqb_neq. intros ->.
            assert (Hz0 : timeLeft s - 1 == 0) by (rewrite Hnew; reflexivity).
            apply Qeq_bool_iff in Hz0. congruence. }
    destruct Hstep as [Ha' [Ht' Hc']].
    destruct (IH (step Tick s) (Z.max 0 (z - 1)) Ha' ltac:(lia) Ht') as [Ht'' Hc''].
    split.
    + rewrite Ht''.
      replace (Z.max 0 (z - Z.of_nat (S k)))
        with (Z.max 0 (Z.max 0 (z - 1) - Z.of_nat k)) by lia.
      apply Qeq_refl.
    + rewrite Hc'', Hc'.
      destruct (Z.eqb_spec z 1) as [Hz1|Hne];
        destruct (Z.leb_spec 1 z), (Z.leb_spec z (Z.of_nat (S k))),
          (Z.leb_spec 1 (Z.max 0 (z - 1))),
          (Z.leb_spec (Z.max 0 (z - 1)) (Z.of_nat k)); cbn [andb]; lia.
Qed.

(** A countdown from a whole number of seconds, up to 2^53 of them so
    that the source's subtraction is exact, left running: after [k]
    ticks the time left is the duration less [k], or zero once that
    is reached, and [onComplete] has been called once if the duration
    is at least one and the ticks have used it up, else not at all. A
    countdown from zero never calls it. *)
Theorem countdown_from_whole_seconds (n : N) (k : nat) :
  (n <= exactSeconds)%N ->
  let s := run (ticks k) (useTimer (inject_Z (Z.of_N n)) true) in
  timeLeft s == inject_Z (Z.max 0 (Z.of_N n - Z.of_nat k))
  /\ completions s = (if (1 <=? n)%N && (n <=? N.of_nat k)%N then 1 else 0)%nat.
Proof.
  intros _. cbv zeta.
  destruct (ticks_natural k (useTimer (inject_Z (Z.of_N n)) true) (Z.of_N n)
              eq_refl ltac:(lia) ltac:(reflexivity)) as [Ht Hc].
  split; [exact Ht|]. rewrite Hc. cbn [useTimer completions Nat.add].
  destruct (Z.leb_spec 1 (Z.of_N n)), (Z.leb_spec (Z.of_N n) (Z.of_nat k)),
    (N.leb_spec 1 n), (N.leb_spec n (N.of_nat k)); cbn; lia.
Qed.

Lemma countdown_from_whole_seconds_witness :
  (3 <= exactSeconds)%N
  /\ timeLeft (run (ticks 5) (useTimer 3 true)) == 0
  /\ completions (run (ticks 5) (useTimer 3 true)) = 1%nat.
Proof.
  assert (H : (3 <= exactSeconds)%N) by (vm_compute; discriminate).
  split; [exact H|].
  exact (countdown_from_whole_seconds 3 5 H).
Defined.

Lemma ticks_spent (k : nat) :
  forall s, isActive s = true -> timeLeft s <= 0 ->
            completions (run (ticks k) s) = completions s.
Proof.
  induction k as [|k IH]; intros s Ha Ht; [reflexivity|].
  rewrite run_tick.
  assert (El : Qle_bool (timeLeft s) 0 = true) by (apply Qle_bool_iff; exact Ht).
  rewrite IH.
  - unfold step. rewrite Ha. unfold countdown. rewrite El. reflexivity.
  - unfold step. rewrite Ha. reflexivity.
  - unfold step. rewrite Ha. unfold countdown. rewrite El. cbn. apply Qle_refl.
Qed.

(** A duration that is a fraction of a second: the first tick takes
    the time left below zero, and [onComplete] is never called. *)
Theorem fraction_of_a_second_never_completes (d : Q) (k : nat) :
  0 < d -> d < 1 ->
  timeLeft (run (ticks 1) (useTimer d true)) < 0
  /\ completions (run (ticks k) (useTimer d true)) = 0%nat.
Proof.
  intros Hpos Hlt.
  assert (El : Qle_bool d 0 = false).
  { destruct (Qle_bool d 0) eqn:E; [|reflexivity].
    apply Qle_bool_iff in E. lra. }
  assert (Ee : Qeq_bool (d - 1) 0 = false).
  { destruct (Qeq_bool (d - 1) 0) eqn:E; [|reflexivity].
    apply Qeq_bool_iff in E. lra. }
  assert (Hstep : step Tick (useTimer d true)
                  = {| timeLeft := d - 1; durationSeconds := d;
                       isActive := true; completions := 0 |}).
  { unfold step, useTimer, countdown. cbn. rewrite El. cbn. rewrite Ee. reflexivity. }
  split.
  - cbn [ticks repeat run fold_left]. rewrite Hstep. cbn. lra.
  - destruct k as [|k]; [reflexivity|].
    rewrite run_tick, Hstep, ticks_spent; [reflexivity|reflexivity|cbn; lra].
Qed.

Lemma fraction_of_a_second_never_completes_witness :
  (0 < 1 # 2 /\ 1 # 2 < 1)
  /\ timeLeft (run (ticks 1) (useTimer (1 # 2) true)) < 0
  /\ completions (run (ticks 5) (useTimer (1 # 2) true)) = 0%nat.
Proof.
  split; [split; reflexivity|].
  apply (fraction_of_a_second_never_completes (1 # 2) 5); reflexivity.
Defined.

Lemma ticks_once (k : nat) :
  forall s, isActive s = true ->
            (completions (run (ticks k) s) <= completions s + 1)%nat.
Proof.
  induction k as [|k IH]; intros s Ha; [cbn; lia|].
  rewrite run_tick.
  assert (Ha' : isActive (step Tick s) = true).
  { unfold step. rewrite Ha. reflexivity. }
  destruct (snd (countdown (timeLeft s))) eqn:Ef.
  - assert (Hz : timeLeft (step Tick s) <= 0
                 /\ completions (step Tick s) = S (completions s)).
    { unfold step. rewrite Ha. cbn [timeLeft completions]. rewrite Ef.
      split; [|reflexivity]. unfold countdown in *.
      destruct (Qle_bool (timeLeft s) 0); cbn [fst snd] in *; [discriminate|].
      apply Qeq_bool_iff in Ef. rewrite Ef. apply Qle_refl. }
    destruct Hz as [Hz Hc]. rewrite (ticks_spent k _ Ha' Hz), Hc. lia.
  - specialize (IH (step Tick s) Ha').
    assert (Hc : completions (step Tick s) = completions s).
    { unfold step. rewrite Ha. cbn [completions]. rewrite Ef. reflexivity. }
    rewrite Hc in IH. exact IH.
Qed.

(** Whatever the duration, a countdown that is left running calls
    [onComplete] at most once, and never when the duration is zero or
    negative. *)
Theorem completes_at_most_once (d : Q) (k : nat) :
  let s := run (ticks k) (useTimer d true) in
  if Qle_bool d 0 then completions s = 0%nat else (completions s <= 1)%nat.
Proof.
  cbv zeta. destruct (Qle_bool d 0) eqn:E.
  - apply Qle_bool_iff in E.
    rewrite (ticks_spent k (useTimer d true) eq_refl E). reflexivity.
  - apply (ticks_once k (useTimer d true) eq_refl).
Qed.

(** *** The progress bar *)

(** While the time left is between zero and the total, the bar is
    between 0 and 100 percent wide; with no time left it is full. *)
Theorem progress_is_a_percentage (d t : Q) :
  0 <= t -> t <= Qmax d 1 ->
  0 <= progress d t <= 100 /\ progress d 0 == 100.
Proof.
  intros Ht0 Ht1. unfold progress. cbv zeta.
  set (total := Qmax d 1) in *.
  assert (Htotal : 1 <= total) by apply Q.le_max_r.
  assert (Hx : forall x, (total - x) / total * 100 == 100 - x / total * 100).
  { intros x. field. lra. }
  assert (Hq : 0 <= t / total <= 1).
  { split.
    - apply Qle_shift_div_l; lra.
    - apply Qle_shift_div_r; lra. }
  assert (Hmin : forall x, 0 <= x / total ->
            Qmin 100 ((total - x) / total * 100) == (total - x) / total * 100).
  { intros x Hpos. apply Q.min_r. rewrite Hx. lra. }
  split.
  - rewrite Hmin, Hx by apply Hq. lra.
  - assert (Hz : 0 / total == 0) by (unfold Qdiv; lra).
    rewrite Hmin, Hx, Hz by (rewrite Hz; apply Qle_refl). reflexivity.
Qed.

Lemma progress_is_a_percentage_witness :
  (0 <= 450 /\ 450 <= Qmax 900 1)
  /\ 0 <= progress 900 450 <= 100 /\ progress 900 0 == 100.
Proof.
  assert (H0 : 0 <= 450) by discriminate.
  assert (H1 : 450 <= Qmax 900 1) by (vm_compute; discriminate).
  split; [split; assumption|].
  exact (progress_is_a_percentage 900 450 H0 H1).
Defined.

(** *** The display *)

Lemma clock_table :
  forallb (fun t =>
             App.sameString (clock t)
               [48 + t / 60 / 10; 48 + (t / 60) mod 10; 58;
                48 + (t mod 60) / 10; 48 + (t mod 60) mod 10]%N)
          (List.map N.of_nat (seq 0 (N.to_nat 6000))) = true.
Proof. vm_compute. reflexivity. Qed.

Lemma sameString_eq (a b : jsstring) : App.sameString a b = true -> a = b.
Proof.
  revert b. induction a as [|c a IH]; intros [|d b] H; try discriminate H.
  - reflexivity.
  - cbn in H. apply andb_prop in H. destruct H as [Hc Hr].
    apply N.eqb_eq in Hc. rewrite (IH b Hr), Hc. reflexivity.
Qed.

(** Below a hundred minutes the display is five characters: two
    digits of minutes, a colon, two digits of seconds. *)
Theorem clock_is_mm_ss (t : N) :
  (t < 6000)%N ->
  clock t
  = [48 + t / 60 / 10; 48 + (t / 60) mod 10; 58;
     48 + (t mod 60) / 10; 48 + (t mod 60) mod 10]%N.
Proof.
  intros Ht.
  pose proof (proj1 (forallb_forall _ _) clock_table t) as H.
  apply sameString_eq. apply H.
  rewrite <- (N2Nat.id t). apply in_map. apply in_seq. lia.
Qed.

Lemma clock_is_mm_ss_witness :
  (900 < 6000)%N /\ clock 900 = lit "15:00".
Proof.
  split; [reflexivity|].
  rewrite (clock_is_mm_ss 900 eq_refl). reflexivity.
Defined.

End TimerFacts.

(** * The application shell *)

Module AppFacts.

Import App.

Lemma sameString_refl (a : jsstring) : sameString a a = true.
Proof.
  induction a as [|c a IH]; [reflexivity|].
  cbn. rewrite N.eqb_refl. exact IH.
Qed.

Lemma sameString_true (a b : jsstring) : sameString a b = true <-> a = b.
Proof.
  split; [apply TimerFacts.sameString_eq|].
  intros ->. apply sameString_refl.
Qed.

Lemma drawnFrom_from (cards : list CueCard) (usedIds : list jsstring) (c : CueCard) :
  In c (drawnFrom cards usedIds) ->
  In c cards
  /\ (pool cards usedIds <> [] -> includesId usedIds (id c) = false).
Proof.
  unfold drawnFrom.
  destruct (pool cards usedIds) as [|p ps] eqn:Ep; intros Hin.
  - split; [exact Hin|congruence].
  - rewrite <- Ep in Hin. unfold pool in Hin. apply filter_In in Hin.
    destruct Hin as [Hin Hun]. split; [exact Hin|].
    intros _. apply negb_true_iff. exact Hun.
Qed.

Lemma drawnFrom_nonempty (cards : list CueCard) (usedIds : list jsstring) :
  cards <> [] -> drawnFrom cards usedIds <> [].
Proof.
  unfold drawnFrom. intros Hc.
  destruct (pool cards usedIds); [exact Hc|discriminate].
Qed.

Lemma index_in_range (random : Q) (len : nat) :
  0 <= random -> random < 1 -> (0 < len)%nat ->
  (Z.to_nat (Qfloor (random * inject_Z (Z.of_nat len))) < len)%nat.
Proof.
  intros H0 H1 Hlen.
  assert (Hl : 0 < inject_Z (Z.of_nat len)).
  { change 0 with (inject_Z 0). rewrite <- Zlt_Qlt. lia. }
  assert (Hlt : random * inject_Z (Z.of_nat len) < inject_Z (Z.of_nat len)).
  { revert Hl. generalize (inject_Z (Z.of_nat len)). intros l Hl. nra. }
  assert (Hge : 0 <= random * inject_Z (Z.of_nat len)).
  { revert Hl. generalize (inject_Z (Z.of_nat len)). intros l Hl. nra. }
  pose proof (Qfloor_le (random * inject_Z (Z.of_nat len))) as Hf.
  assert (Hz : (Qfloor (random * inject_Z (Z.of_nat len)) < Z.of_nat len)%Z).
  { rewrite Zlt_Qlt. eapply Qle_lt_trans; [exact Hf|exact Hlt]. }
  assert (Hz0 : (0 <= Qfloor (random * inject_Z (Z.of_nat len)))%Z).
  { change 0%Z with (Qfloor 0). apply Qfloor_resp_le. exact Hge. }
  lia.
Qed.

(** With at least one card in the table and a random number in
    [[0, 1)], a card is always selected; it is a card of the table,
    and as long as some card has not been used yet, it is one that has
    not been used. *)
Theorem selectCard_selects
    (cards : list CueCard) (usedIds : list jsstring) (random : Q) :
  cards <> [] -> 0 <= random -> random < 1 ->
  exists card,
    selectCard cards usedIds random = Some card
    /\ In card cards
    /\ (pool cards usedIds <> [] -> includesId usedIds (id card) = false).
Proof.
  intros Hc H0 H1. unfold selectCard. cbv zeta.
  pose proof (drawnFrom_nonempty cards usedIds Hc) as Hne.
  assert (Hlen : (0 < List.length (drawnFrom cards usedIds))%nat).
  { destruct (drawnFrom cards usedIds); [congruence|cbn; lia]. }
  pose proof (index_in_range random _ H0 H1 Hlen) as Hi.
  apply nth_error_Some in Hi.
  destruct (nth_error (drawnFrom cards usedIds) _) as [card|] eqn:E; [|congruence].
  exists card. split; [reflexivity|].
  apply drawnFrom_from. eapply nth_error_In. exact E.
Qed.

Lemma selectCard_selects_witness :
  (sampleCards <> [] /\ 0 <= 9 # 10 /\ 9 # 10 < 1)
  /\ exists card,
       selectCard sampleCards [lit "c1"] (9 # 10) = Some card
       /\ In card sampleCards
       /\ (pool sampleCards [lit "c1"] <> [] -> includesId [lit "c1"] (id card) = false).
Proof.
  assert (Hc : sampleCards <> []) by discriminate.
  assert (H0 : 0 <= 9 # 10) by discriminate.
  assert (H1 : 9 # 10 < 1) by reflexivity.
  split; [repeat split; assumption|].
  exact (selectCard_selects sampleCards [lit "c1"] (9 # 10) Hc H0 H1).
Defined.

Lemma findIndex_found {A} (test : A -> bool) (l : list A) (x : A) :
  In x l -> test x = true ->
  (0 <= findIndex test l < Z.of_nat (List.length l))%Z
  /\ exists y, nth_error l (Z.to_nat (findIndex test l)) = Some y /\ test y = true.
Proof.
  induction l as [|a l IH]; intros Hin Hx; [destruct Hin|].
  cbn [findIndex List.length].
  destruct (test a) eqn:Ea.
  - split; [lia|]. exists a. split; [reflexivity|exact Ea].
  - destruct Hin as [->|Hin]; [congruence|].
    destruct (IH Hin Hx) as [Hr [y [Hy Hty]]].
    destruct (Z.ltb_spec (findIndex test l) 0) as [Hneg|Hpos]; [lia|].
    split; [lia|]. exists y. split; [|exact Hty].
    replace (Z.to_nat (findIndex test l + 1)) with (S (Z.to_nat (findIndex test l))) by lia.
    exact Hy.
Qed.

(** The index stored for the selected card is never [-1]: it points
    into the table, at a card with the id of the selected one. *)
Theorem cueCardIndex_points_at_selected (cards : list CueCard) (selected : CueCard) :
  In selected cards ->
  (0 <= cueCardIndex cards selected < Z.of_nat (List.length cards))%Z
  /\ exists shown,
       nth_error cards (Z.to_nat (cueCardIndex cards selected)) = Some shown
       /\ id shown = id selected.
Proof.
  intros Hin. unfold cueCardIndex.
  destruct (findIndex_found (fun c => sameString (id c) (id selected)) cards selected
              Hin (sameString_refl _)) as [Hr [y [Hy Ht]]].
  split; [exact Hr|]. exists y. split; [exact Hy|].
  apply sameString_true. exact Ht.
Qed.

Lemma cueCardIndex_points_at_selected_witness :
  In (nth 1 sampleCards (nth 0 sampleCards {| id := []; title := []; bullets := [] |}))
     sampleCards
  /\ (0 <= cueCardIndex sampleCards
             (nth 1 sampleCards (nth 0 sampleCards {| id := []; title := []; bullets := [] |}))
      < Z.of_nat (List.length sampleCards))%Z.
Proof.
  assert (Hin : In (nth 1 sampleCards
                      (nth 0 sampleCards {| id := []; title := []; bullets := [] |}))
                   sampleCards).
  { right. left. reflexivity. }
  split; [exact Hin|].
  apply (cueCardIndex_points_at_selected sampleCards _ Hin).
Defined.

Lemma join_has (separator s : jsstring) (l : list jsstring) :
  In s l -> exists before after, join separator l = before ++ s ++ after.
Proof.
  induction l as [|a l IH]; intros Hin; [destruct Hin|].
  destruct Hin as [->|Hin].
  - destruct l as [|b l].
    + exists [], []. cbn. rewrite app_nil_r. reflexivity.
    + exists [], (separator ++ join separator (b :: l)). reflexivity.
  - destruct (IH Hin) as [before [after E]].
    destruct l as [|b l]; [destruct Hin|].
    exists (a ++ separator ++ before), after.
    change (join separator (a :: b :: l))
      with (a ++ separator ++ join separator (b :: l)).
    rewrite E, <- !app_assoc. reflexivity.
Qed.

(** Every finalized message is in the transcript that is sent for
    evaluation, as its role, a colon and its text. *)
Theorem transcript_has_every_message
    (messages : list ChatMessage) (m : ChatMessage) :
  In m messages ->
  includes (transcriptOf messages) (roleName (role m) ++ lit ": " ++ text m) = true.
Proof.
  intros Hin. unfold transcriptOf.
  destruct (join_has [10%N] (line m) (List.map line messages) (in_map line _ _ Hin))
    as [before [after ->]].
  apply includes_app.
Qed.

Lemma transcript_has_every_message_witness :
  let said := (Build_ChatMessage (lit "1-u") user (lit "Hello")) in
  let reply := (Build_ChatMessage (lit "1-m") model (lit "Welcome")) in
  In reply [said; reply]
  /\ includes (transcriptOf [said; reply]) (lit "model: Welcome") = true.
Proof.
  cbv zeta.
  assert (Hin : In (Build_ChatMessage (lit "1-m") model (lit "Welcome"))
                   [(Build_ChatMessage (lit "1-u") user (lit "Hello"));
                    (Build_ChatMessage (lit "1-m") model (lit "Welcome"))]).
  { right. left. reflexivity. }
  split; [exact Hin|].
  exact (transcript_has_every_message _ _ Hin).
Defined.

End AppFacts.
